(** * Backup client (client_side.py): wire protocol

    A shallow embedding of the client side of the backup protocol:
    the struct codec, the request framer [send_request], the response
    readers [receive_status], [receive_filename], [receive_file], the four
    operations and the orchestrator [request].

    Python values are modelled as follows.
    - [int] is [Z];
    - [bytes] is a list of [Byte.byte];
    - [str] is the list of its code points ([ord] of each character), so
      that [len] counts characters while [encode] produces UTF-8 bytes;
    - an exception is a constructor of [exn]; a computation that may raise
      returns a [result];
    - the socket, the file system and the console are fields of an explicit
      [state] threaded through every call. *)

From Stdlib Require Import ZArith List String Ascii Strings.Byte Lia Bool.
From stdpp Require Import gmap list.
Import ListNotations.

Local Open Scope Z_scope.

(** ** Values *)

Abbreviation bytes := (list byte).
Abbreviation str := (list Z).

(** [ord] of every character of an ASCII literal of the source. *)
Definition lit (s : string) : str :=
  map (fun a => Z.of_N (N_of_ascii a)) (list_ascii_of_string s).

(** The value of one byte, [0 .. 255]. *)
Definition byte_val (b : byte) : Z := Z.of_N (Byte.to_N b).

(** The byte of value [z mod 256]. *)
Definition byte_of (z : Z) : byte :=
  match Byte.of_N (Z.to_N (z mod 256)) with
  | Some b => b
  | None => x00
  end.

(** [len] of a Python sequence, as an [int]. *)
Definition len {A} (l : list A) : Z := Z.of_nat (length l).

(** ** Exceptions *)

Inductive exn :=
| StructError            (* struct.error *)
| FileNotFoundError
| UnicodeEncodeError
| UnicodeDecodeError
| ConnectionRefusedError
| OSError.

Inductive result (A : Type) :=
| Ok (a : A)
| Raise (e : exn).
Arguments Ok {A} a.
Arguments Raise {A} e.

Definition rbind {A B} (r : result A) (k : A -> result B) : result B :=
  match r with
  | Ok a => k a
  | Raise e => Raise e
  end.

(** ** Enumerations *)

Inductive OpCode := SAVE_FILE | RETRIEVE_FILE | DELETE_FILE | LIST_FILES.

Definition OpCode_value (o : OpCode) : Z :=
  match o with
  | SAVE_FILE => 100
  | RETRIEVE_FILE => 200
  | DELETE_FILE => 201
  | LIST_FILES => 202
  end.

Definition OpCode_eqb (a b : OpCode) : bool :=
  match a, b with
  | SAVE_FILE, SAVE_FILE
  | RETRIEVE_FILE, RETRIEVE_FILE
  | DELETE_FILE, DELETE_FILE
  | LIST_FILES, LIST_FILES => true
  | _, _ => false
  end.

Inductive ResponseStatus :=
| FILE_RETRIEVED | FILE_LIST_RETRIEVED | SUCCESS
| NO_FILE | NO_USER_FILES | SERVER_ERROR.

Definition ResponseStatus_value (s : ResponseStatus) : Z :=
  match s with
  | FILE_RETRIEVED => 210
  | FILE_LIST_RETRIEVED => 211
  | SUCCESS => 212
  | NO_FILE => 1001
  | NO_USER_FILES => 1002
  | SERVER_ERROR => 1003
  end.

Inductive FieldSize := USER_ID | VERSION | OP | NAME_LEN | FILE_SIZE | STATUS.

Definition FieldSize_value (f : FieldSize) : Z :=
  match f with
  | USER_ID => 4
  | VERSION => 1
  | OP => 1
  | NAME_LEN => 2
  | FILE_SIZE => 4
  | STATUS => 2
  end.

(** ** The struct module, little-endian standard sizes ("<") *)

Module struct.

(** Format characters used by the client. *)
Inductive code := I | B | H.

Definition width (c : code) : nat :=
  match c with
  | I => 4%nat
  | B => 1%nat
  | H => 2%nat
  end.

Definition calcsize (fmt : list code) : nat :=
  fold_right (fun c n => (width c + n)%nat) 0%nat fmt.

(** The [w] low bytes of [n], least significant first. *)
Fixpoint to_le (w : nat) (n : Z) : bytes :=
  match w with
  | O => []
  | S k => byte_of n :: to_le k (n / 256)
  end.

(** [int.from_bytes(bs, byteorder='little')]. *)
Fixpoint from_le (bs : bytes) : Z :=
  match bs with
  | [] => 0
  | b :: t => byte_val b + 256 * from_le t
  end.

(** One unsigned field: out of range raises [struct.error]. *)
Definition pack_field (c : code) (n : Z) : result bytes :=
  if (0 <=? n) && (n <? 2 ^ (8 * Z.of_nat (width c)))
  then Ok (to_le (width c) n)
  else Raise StructError.

(** [struct.pack("<" + fmt, *vals)]: no padding between the fields; a
    wrong number of values raises [struct.error]. *)
Fixpoint pack (fmt : list code) (vals : list Z) : result bytes :=
  match fmt, vals with
  | [], [] => Ok []
  | c :: fmt', v :: vals' =>
      rbind (pack_field c v) (fun b =>
      rbind (pack fmt' vals') (fun r => Ok (b ++ r)))
  | _, _ => Raise StructError
  end.

Fixpoint unpack_fields (fmt : list code) (buf : bytes) : list Z :=
  match fmt with
  | [] => []
  | c :: fmt' =>
      from_le (take (width c) buf) :: unpack_fields fmt' (drop (width c) buf)
  end.

(** [struct.unpack("<" + fmt, buf)]: the buffer must have exactly
    [calcsize] bytes, else [struct.error]. *)
Definition unpack (fmt : list code) (buf : bytes) : result (list Z) :=
  if Nat.eqb (length buf) (calcsize fmt)
  then Ok (unpack_fields fmt buf)
  else Raise StructError.

End struct.

(** [int.from_bytes(bs, byteorder='big')]. *)
Definition int_from_bytes_big (bs : bytes) : Z :=
  fold_left (fun acc b => acc * 256 + byte_val b) bs 0.

(** ** UTF-8, the codec of [str.encode()] and [bytes.decode()] *)

Module utf8.

(** A continuation byte carrying the six bits of [c] at [shift]. *)
Definition cont (c shift : Z) : byte :=
  byte_of (Z.lor 128 (Z.land (Z.shiftr c shift) 63)).

Definition encode_char (c : Z) : result bytes :=
  if c <? 0 then Raise UnicodeEncodeError
  else if c <? 128 then Ok [byte_of c]
  else if c <? 2048 then
    Ok [byte_of (Z.lor 192 (Z.shiftr c 6)); cont c 0]
  else if c <? 65536 then
    if (55296 <=? c) && (c <=? 57343) then Raise UnicodeEncodeError
    else Ok [byte_of (Z.lor 224 (Z.shiftr c 12)); cont c 6; cont c 0]
  else if c <? 1114112 then
    Ok [byte_of (Z.lor 240 (Z.shiftr c 18)); cont c 12; cont c 6; cont c 0]
  else Raise UnicodeEncodeError.

Fixpoint encode (s : str) : result bytes :=
  match s with
  | [] => Ok []
  | c :: t =>
      rbind (encode_char c) (fun b =>
      rbind (encode t) (fun r => Ok (b ++ r)))
  end.

Definition between (lo hi : Z) (b : byte) : bool :=
  (lo <=? byte_val b) && (byte_val b <=? hi).

Definition low6 (b : byte) : Z := Z.land (byte_val b) 63.

(** Strict decoding: well-formed sequences only (no overlong forms, no
    surrogates, nothing above U+10FFFF). *)
Fixpoint decode (bs : bytes) : result str :=
  match bs with
  | [] => Ok []
  | b0 :: t0 =>
      if byte_val b0 <? 128 then
        rbind (decode t0) (fun r => Ok (byte_val b0 :: r))
      else if between 194 223 b0 then
        match t0 with
        | b1 :: t1 =>
            if between 128 191 b1 then
              rbind (decode t1) (fun r =>
                Ok (Z.land (byte_val b0) 31 * 64 + low6 b1 :: r))
            else Raise UnicodeDecodeError
        | _ => Raise UnicodeDecodeError
        end
      else if between 224 239 b0 then
        match t0 with
        | b1 :: b2 :: t2 =>
            let lo := if byte_val b0 =? 224 then 160 else 128 in
            let hi := if byte_val b0 =? 237 then 159 else 191 in
            if between lo hi b1 && between 128 191 b2 then
              rbind (decode t2) (fun r =>
                Ok ((Z.land (byte_val b0) 15 * 64 + low6 b1) * 64
                    + low6 b2 :: r))
            else Raise UnicodeDecodeError
        | _ => Raise UnicodeDecodeError
        end
      else if between 240 244 b0 then
        match t0 with
        | b1 :: b2 :: b3 :: t3 =>
            let lo := if byte_val b0 =? 240 then 144 else 128 in
            let hi := if byte_val b0 =? 244 then 143 else 191 in
            if between lo hi b1 && between 128 191 b2
               && between 128 191 b3 then
              rbind (decode t3) (fun r =>
                Ok (((Z.land (byte_val b0) 7 * 64 + low6 b1) * 64
                     + low6 b2) * 64 + low6 b3 :: r))
            else Raise UnicodeDecodeError
        | _ => Raise UnicodeDecodeError
        end
      else Raise UnicodeDecodeError
  end.

End utf8.

(** ** State: socket, file system, console *)

(** A stream socket.  [sent] is everything handed to [send], in order.
    [incoming] is what the peer delivers, one segment per arrival; when it
    is exhausted the peer has closed the stream.  [is_open] is cleared by
    [close]. *)
Record socket := Socket {
  sent : bytes;
  incoming : list bytes;
  is_open : bool
}.

(** What the client writes to the console. *)
Inductive output :=
| Printed (line : str)          (* print(line) *)
| Traceback (e : exn).          (* traceback.print_exc() *)

(** [files] maps the name of each regular file to its content; [net] tells,
    for an address, whether a connection is accepted and which segments the
    peer then delivers. *)
Record state := State {
  sock : socket;
  files : gmap str bytes;
  console : list output;
  net : str -> Z -> option (list bytes)
}.

(** The outcome of running a statement: it returns, it raises, or it does
    not terminate. *)
Inductive outcome (A : Type) :=
| Returns (a : A)
| Raises (e : exn)
| Diverges.
Arguments Returns {A} a.
Arguments Raises {A} e.
Arguments Diverges {A}.

Definition M (A : Type) : Type := state -> outcome A * state.

Definition ret {A} (a : A) : M A := fun st => (Returns a, st).

Definition raise {A} (e : exn) : M A := fun st => (Raises e, st).

Definition bind {A B} (m : M A) (k : A -> M B) : M B := fun st =>
  match m st with
  | (Returns a, st') => k a st'
  | (Raises e, st') => (Raises e, st')
  | (Diverges, st') => (Diverges, st')
  end.

(** A pure computation that may raise, run as a statement. *)
Definition lift {A} (r : result A) : M A :=
  match r with
  | Ok a => ret a
  | Raise e => raise e
  end.

Declare Scope py_scope.
Delimit Scope py_scope with py.
Notation "x <- m ;; k" := (bind m (fun x => k))
  (at level 100, m at next level, k at level 200, right associativity)
  : py_scope.
Notation "m ;; k" := (bind m (fun _ => k))
  (at level 100, k at level 200, right associativity) : py_scope.
Local Open Scope py_scope.

Definition set_sock (s : socket) (st : state) : state :=
  State s (files st) (console st) (net st).

Definition set_files (f : gmap str bytes) (st : state) : state :=
  State (sock st) f (console st) (net st).

Definition print (line : str) : M unit := fun st =>
  (Returns tt, State (sock st) (files st) (console st ++ [Printed line]) (net st)).

Definition print_exc (e : exn) : M unit := fun st =>
  (Returns tt, State (sock st) (files st) (console st ++ [Traceback e]) (net st)).

(** *** Socket operations *)

(** [recv] on the arrived segments: at most [n] bytes of the first segment
    that has any; the rest of that segment stays queued.  An exhausted
    stream gives the empty bytes object. *)
Fixpoint recv_segs (n : nat) (segs : list bytes) : bytes * list bytes :=
  match segs with
  | [] => ([], [])
  | [] :: rest => recv_segs n rest
  | seg :: rest =>
      (take n seg,
       match drop n seg with
       | [] => rest
       | more => more :: rest
       end)
  end.

(** [client_socket.recv(bufsize)]. *)
Definition recv (bufsize : Z) : M bytes := fun st =>
  let s := sock st in
  let (chunk, segs) := recv_segs (Z.to_nat bufsize) (incoming s) in
  (Returns chunk, set_sock (Socket (sent s) segs (is_open s)) st).

(** [client_socket.send(data)]. *)
Definition send (data : bytes) : M Z := fun st =>
  let s := sock st in
  (Returns (len data),
   set_sock (Socket (sent s ++ data) (incoming s) (is_open s)) st).

(** [client_socket.connect((server_ip, server_port))]. *)
Definition connect (server_ip : str) (server_port : Z) : M unit := fun st =>
  match net st server_ip server_port with
  | Some segs =>
      (Returns tt,
       set_sock (Socket (sent (sock st)) segs (is_open (sock st))) st)
  | None => (Raises ConnectionRefusedError, st)
  end.

(** [socket.socket(socket.AF_INET, socket.SOCK_STREAM)]. *)
Definition socket_socket : M unit := fun st =>
  (Returns tt, set_sock (Socket [] [] true) st).

(** [client_socket.close()]. *)
Definition close : M unit := fun st =>
  let s := sock st in
  (Returns tt, set_sock (Socket (sent s) (incoming s) false) st).

(** *** Files *)

(** [open(filename, "rb")] followed by [read()].  The local names are those
    of one flat directory of regular files: a name that is not there is a
    missing file. *)
Definition read_file (filename : str) : M bytes := fun st =>
  match filename with
  | [] => (Raises FileNotFoundError, st)
  | _ =>
      match files st !! filename with
      | Some content => (Returns content, st)
      | None => (Raises FileNotFoundError, st)
      end
  end.

(** [open(filename, "wb")]: the file is created, or truncated.  In the flat
    directory of regular files every name but the empty one can be opened
    for writing. *)
Definition open_wb (filename : str) : M unit := fun st =>
  match filename with
  | [] => (Raises FileNotFoundError, st)
  | _ => (Returns tt, set_files (<[filename := []]> (files st)) st)
  end.

(** [file.write(chunk)] on the file opened under [filename]. *)
Definition file_write (filename : str) (chunk : bytes) : M unit := fun st =>
  (Returns tt,
   set_files (alter (fun content => content ++ chunk) filename (files st)) st).

(** ** The client *)

Definition get_file_bytes (filename : str) : M bytes := read_file filename.

Definition send_request (user_id : bytes) (version : Z) (op_code : OpCode)
    (filename : str) : M unit :=
  package <-
    match filename with
    | [] =>
        lift (struct.pack [struct.I; struct.B; struct.B]
                [int_from_bytes_big user_id; version; OpCode_value op_code])
    | _ =>
        package <- lift (struct.pack [struct.I; struct.B; struct.B; struct.H]
                           [int_from_bytes_big user_id; version;
                            OpCode_value op_code; len filename]);;
        name <- lift (utf8.encode filename);;
        ret (package ++ name)
    end;;
  package <-
    (if OpCode_eqb op_code SAVE_FILE then
       file_content <- get_file_bytes filename;;
       size <- lift (struct.pack [struct.I] [len file_content]);;
       ret ((package ++ size) ++ file_content)
     else ret package);;
  _ <- send package;;
  ret tt.

Definition receive_status : M Z :=
  header <- recv (FieldSize_value VERSION + FieldSize_value STATUS);;
  fields <- lift (struct.unpack [struct.B; struct.H] header);;
  ret (nth 1 fields 0).

Definition receive_filename : M str :=
  buf <- recv (FieldSize_value NAME_LEN);;
  fields <- lift (struct.unpack [struct.H] buf);;
  let name_len := nth 0 fields 0 in
  buf <- recv name_len;;
  filename <- lift (utf8.decode buf);;
  ret filename.

Definition buffer_size : Z := 2 ^ 12.

(** The [while] loop of [receive_file].  Every iteration that does not leave
    the loop consumes at least one byte of the stream, so [fuel] larger than
    the number of bytes still to arrive is never used up. *)
Fixpoint receive_loop (fuel : nat) (filename : str) (file_size : Z) : M unit :=
  match fuel with
  | O => fun st => (Diverges, st)
  | S fuel' =>
      if 0 <? file_size then
        chunk <- recv buffer_size;;
        match chunk with
        | [] => ret tt
        | _ =>
            file_write filename chunk;;
            receive_loop fuel' filename (file_size - len chunk)
        end
      else ret tt
  end.

(** Bytes of the stream not yet read. *)
Definition pending (s : socket) : nat := length (concat (incoming s)).

Definition receive_file (filename : str) : M unit :=
  buf <- recv (FieldSize_value FILE_SIZE);;
  fields <- lift (struct.unpack [struct.I] buf);;
  let file_size := nth 0 fields 0 in
  open_wb filename;;
  fun st => receive_loop (S (pending (sock st))) filename file_size st.

Definition request_file_list (user_id : bytes) (version : Z) : M unit :=
  send_request user_id version LIST_FILES [];;
  status <- receive_status;;
  if status =? ResponseStatus_value FILE_LIST_RETRIEVED then
    filename <- receive_filename;;
    receive_file filename;;
    file_content <- read_file filename;;
    print (lit "List of files on server:");;
    text <- lift (utf8.decode file_content);;
    print text
  else if status =? ResponseStatus_value NO_USER_FILES then
    print (lit "No files on server")
  else
    print (lit "Wrong status code").

Definition request_file_save (user_id : bytes) (version : Z) (filename : str)
    : M unit :=
  send_request user_id version SAVE_FILE filename;;
  status <- receive_status;;
  if status =? ResponseStatus_value SUCCESS then
    filename <- receive_filename;;
    print (lit "Saved " ++ filename ++ lit " to server")
  else if status =? ResponseStatus_value NO_FILE then
    print (lit "No such file " ++ filename ++ lit " on client")
  else
    print (lit "Wrong status code").

Definition request_file_retrieve (user_id : bytes) (version : Z)
    (filename : str) : M unit :=
  send_request user_id version RETRIEVE_FILE filename;;
  status <- receive_status;;
  if status =? ResponseStatus_value FILE_RETRIEVED then
    filename <- receive_filename;;
    receive_file (lit "tmp");;
    print (lit "Retrieved " ++ filename ++ lit " from server")
  else if status =? ResponseStatus_value NO_FILE then
    print (lit "No such file on server")
  else
    print (lit "Wrong status code").

Definition request_file_delete (user_id : bytes) (version : Z)
    (filename : str) : M unit :=
  send_request user_id version DELETE_FILE filename;;
  status <- receive_status;;
  if status =? ResponseStatus_value SUCCESS then
    filename <- receive_filename;;
    print (lit "Deleted " ++ filename ++ lit " from server")
  else if status =? ResponseStatus_value NO_FILE then
    print (lit "No such file on server")
  else
    print (lit "Wrong status code").

(** [try: body  except Exception: handler]. *)
Definition try_except {A} (body : M A) (handler : exn -> M A) : M A := fun st =>
  match body st with
  | (Raises e, st') => handler e st'
  | r => r
  end.

(** [with socket.socket(...) as client_socket: body]: the socket is closed
    when the block is left, by return or by exception, and an exception that
    leaves the block is raised again. *)
Definition with_socket {A} (body : M A) : M A := fun st =>
  let (_, st0) := socket_socket st in
  match body st0 with
  | (Diverges, st') => (Diverges, st')
  | (r, st') => (r, snd (close st'))
  end.

(** A request function together with its [__name__]; the arguments after
    [user_id] are already supplied. *)
Record request_fn := {
  fn_name : str;
  fn_call : bytes -> M unit
}.

Definition request (request_function : request_fn) (server_ip : str)
    (server_port : Z) (user_id : bytes) : M unit :=
  with_socket
    (try_except
       (connect server_ip server_port;;
        fn_call request_function user_id)
       (fun e =>
          print (fn_name request_function ++ lit " failed:");;
          print_exc e)).

(** The four operations as [main] hands them to [request]. *)
Definition op_list (version : Z) : request_fn :=
  {| fn_name := lit "request_file_list";
     fn_call := fun user_id => request_file_list user_id version |}.

Definition op_save (version : Z) (filename : str) : request_fn :=
  {| fn_name := lit "request_file_save";
     fn_call := fun user_id => request_file_save user_id version filename |}.

Definition op_retrieve (version : Z) (filename : str) : request_fn :=
  {| fn_name := lit "request_file_retrieve";
     fn_call := fun user_id => request_file_retrieve user_id version filename |}.

Definition op_delete (version : Z) (filename : str) : request_fn :=
  {| fn_name := lit "request_file_delete";
     fn_call := fun user_id => request_file_delete user_id version filename |}.

(** ** Pure view of the framer *)

(** The bytes [send_request] hands to [send], as a function of its arguments
    and of the file system; [send_request_frame] below shows that this is
    what the statements of [send_request] compute. *)
Definition request_frame (user_id : bytes) (version : Z) (op_code : OpCode)
    (filename : str) (fs : gmap str bytes) : result bytes :=
  rbind
    match filename with
    | [] =>
        struct.pack [struct.I; struct.B; struct.B]
          [int_from_bytes_big user_id; version; OpCode_value op_code]
    | _ =>
        rbind (struct.pack [struct.I; struct.B; struct.B; struct.H]
                 [int_from_bytes_big user_id; version; OpCode_value op_code;
                  len filename]) (fun package =>
        rbind (utf8.encode filename) (fun name => Ok (package ++ name)))
    end (fun package =>
  if OpCode_eqb op_code SAVE_FILE then
    match filename with
    | [] => Raise FileNotFoundError
    | _ =>
        match fs !! filename with
        | Some file_content =>
            rbind (struct.pack [struct.I] [len file_content]) (fun size =>
            Ok ((package ++ size) ++ file_content))
        | None => Raise FileNotFoundError
        end
    end
  else Ok package).

(** The six-byte header. *)
Definition header (user_id : bytes) (version : Z) (op_code : OpCode) : bytes :=
  struct.to_le 4 (int_from_bytes_big user_id)
  ++ [byte_of version; byte_of (OpCode_value op_code)].

(** The state after [data] has been handed to [send]. *)
Definition after_send (data : bytes) (st : state) : state :=
  set_sock (Socket (sent (sock st) ++ data) (incoming (sock st))
              (is_open (sock st))) st.

(** ** The layouts as the specification words them *)


(** ASCII strings: every character is below 128. *)
Definition ascii_str (s : str) : Prop := Forall (fun c => 0 <= c < 128) s.

(** A statement that never fails to terminate. *)
Definition terminates {A} (m : M A) : Prop :=
  forall st, fst (m st) <> Diverges.

(** A state for examples: an open socket on which the peer will deliver
    [segs], the files [fs], an empty console and no reachable server. *)
Definition scenario (segs : list bytes) (fs : gmap str bytes) : state :=
  State (Socket [] segs true) fs [] (fun _ _ => None).

(** A statement all of whose runs relate the state before to the state
    after by [R]. *)
Definition preserves (R : state -> state -> Prop) {A} (m : M A) : Prop :=
  forall st, R st (snd (m st)).

(** Every file other than [path] is as it was. *)
Definition same_files_except (path : str) (st st' : state) : Prop :=
  forall p : str, p <> path -> files st' !! p = files st !! p.

(** Only the socket may have changed. *)
Definition same_but_socket (st st' : state) : Prop :=
  files st' = files st /\ console st' = console st /\ net st' = net st.

(** ** Text files: the list of local filenames *)

(** [str.isspace] of one character: the characters [str.strip] removes. *)
Definition is_space (c : Z) : bool :=
  ((9 <=? c) && (c <=? 13)) || ((28 <=? c) && (c <=? 32))
  || (c =? 133) || (c =? 160) || (c =? 5760)
  || ((8192 <=? c) && (c <=? 8202))
  || (c =? 8232) || (c =? 8233) || (c =? 8239) || (c =? 8287)
  || (c =? 12288).

(** [s.lstrip()]. *)
Fixpoint lstrip (s : str) : str :=
  match s with
  | [] => []
  | c :: t => if is_space c then lstrip t else s
  end.

(** [s.rstrip()]. *)
Definition rstrip (s : str) : str := rev (lstrip (rev s)).

(** [s.strip()]. *)
Definition strip (s : str) : str := rstrip (lstrip s).

(** Universal newlines, the default of a file opened in text mode: a
    carriage return, alone or followed by a line feed, reads as one line
    feed. *)
Fixpoint universal_newlines (s : str) : str :=
  match s with
  | [] => []
  | c :: t =>
      if c =? 13 then
        10 :: match t with
              | [] => []
              | c' :: t' =>
                  if c' =? 10 then universal_newlines t'
                  else universal_newlines t
              end
      else c :: universal_newlines t
  end.

(** [file.readlines()] on the text read: the lines, each with its line feed;
    the last one has none when the text does not end with one. *)
Fixpoint readlines (s : str) : list str :=
  match s with
  | [] => []
  | c :: t =>
      if c =? 10 then [c] :: readlines t
      else match readlines t with
           | [] => [[c]]
           | line :: lines => (c :: line) :: lines
           end
  end.

Section TextFiles.

(** How the platform decodes the bytes of a file opened in text mode without
    an encoding argument. *)
Variable locale_decode : bytes -> result str.

(** The text of a file opened with [open(filename, "r")] and read whole:
    the file must exist and its bytes must decode. *)
Definition file_text (fs : gmap str bytes) (filename : str) : result str :=
  match filename with
  | [] => Raise FileNotFoundError
  | _ =>
      match fs !! filename with
      | Some content =>
          rbind (locale_decode content) (fun text =>
          Ok (universal_newlines text))
      | None => Raise FileNotFoundError
      end
  end.

Definition get_local_filenames : M (list str) :=
  text <- (fun st => lift (file_text (files st) (lit "backup.info")) st);;
  ret (map strip (readlines text)).

End TextFiles.

(** The segments queued once the front of the first one has been read and
    [more] is what is left of it. *)
Definition requeue (more : bytes) (rest : list bytes) : list bytes :=
  match more with
  | [] => rest
  | _ => more :: rest
  end.

(** The state in which [segs] is what is still to arrive. *)
Definition with_incoming (segs : list bytes) (st : state) : state :=
  set_sock (Socket (sent (sock st)) segs (is_open (sock st))) st.

(** No file has changed. *)
Definition same_files (st st' : state) : Prop := files st' = files st.


(** [fronted fields segs rest]: the stream [segs] begins with the fields
    [fields], one after the other, none of them split across two segments;
    [rest] is what is queued after them. *)
Inductive fronted : list bytes -> list bytes -> list bytes -> Prop :=
| fronted_nil (segs : list bytes) : fronted [] segs segs
| fronted_cons (x y : bytes) (more : list bytes) (fields : list bytes)
    (rest : list bytes) :
    x <> [] ->
    fronted fields (requeue y more) rest ->
    fronted (x :: fields) ((x ++ y) :: more) rest.

(** * Properties *)

(** ** Bytes and the field codec *)

Lemma byte_val_range (b : byte) : 0 <= byte_val b < 256.
Proof.
  unfold byte_val. pose proof (Byte.to_N_bounded b). lia.
Qed.

Lemma byte_of_val (b : byte) : byte_of (byte_val b) = b.
Proof.
  unfold byte_of. pose proof (byte_val_range b) as Hr.
  rewrite Z.mod_small by exact Hr.
  unfold byte_val. rewrite N2Z.id, Byte.of_to_N. reflexivity.
Qed.

Lemma byte_val_of (z : Z) : 0 <= z < 256 -> byte_val (byte_of z) = z.
Proof.
  intros Hz. unfold byte_of. rewrite Z.mod_small by exact Hz.
  destruct (Byte.of_N (Z.to_N z)) as [b|] eqn:E.
  - apply Byte.to_of_N in E. unfold byte_val. rewrite E. lia.
  - apply Byte.of_N_None_iff in E. lia.
Qed.

Lemma byte_of_mod (z : Z) : byte_of (z mod 256) = byte_of z.
Proof.
  unfold byte_of. rewrite Z.mod_mod by lia. reflexivity.
Qed.

Lemma to_le_length (w : nat) (n : Z) : length (struct.to_le w n) = w.
Proof.
  revert n. induction w as [|w IH]; intros n; simpl; [reflexivity|].
  now rewrite IH.
Qed.

Lemma from_le_range (bs : bytes) :
  0 <= struct.from_le bs < 256 ^ Z.of_nat (length bs).
Proof.
  induction bs as [|b t IH]; simpl struct.from_le; simpl length.
  - simpl. lia.
  - rewrite Nat2Z.inj_succ, Z.pow_succ_r by lia.
    pose proof (byte_val_range b). lia.
Qed.

(** Encoding the little-endian value of [bs] on [length bs] bytes gives
    [bs] back. *)
Lemma to_le_from_le (bs : bytes) :
  struct.to_le (length bs) (struct.from_le bs) = bs.
Proof.
  induction bs as [|b t IH]; simpl; [reflexivity|].
  pose proof (byte_val_range b) as Hb.
  assert (Hm : (byte_val b + 256 * struct.from_le t) mod 256 = byte_val b).
  { symmetry. apply (Z.mod_unique _ _ (struct.from_le t)); lia. }
  assert (Hd : (byte_val b + 256 * struct.from_le t) / 256 = struct.from_le t).
  { symmetry. apply (Z.div_unique _ _ _ (byte_val b)); lia. }
  f_equal.
  - rewrite <- byte_of_mod, Hm. apply byte_of_val.
  - rewrite Hd. exact IH.
Qed.

Lemma from_le_to_le (w : nat) (n : Z) :
  0 <= n < 256 ^ Z.of_nat w -> struct.from_le (struct.to_le w n) = n.
Proof.
  revert n. induction w as [|w IH]; intros n Hn.
  - simpl in *. lia.
  - rewrite Nat2Z.inj_succ, Z.pow_succ_r in Hn by lia.
    simpl. rewrite IH.
    + rewrite <- byte_of_mod, byte_val_of by (apply Z.mod_pos_bound; lia).
      pose proof (Z.div_mod n 256). lia.
    + split; [apply Z.div_pos; lia|].
      apply Z.div_lt_upper_bound; lia.
Qed.

(** A big-endian reading is the little-endian reading of the reversed
    bytes. *)
Lemma int_from_bytes_big_rev (bs : bytes) :
  int_from_bytes_big bs = struct.from_le (rev bs).
Proof.
  unfold int_from_bytes_big.
  rewrite <- fold_left_rev_right.
  induction (rev bs) as [|b t IH]; simpl; [reflexivity|].
  rewrite IH. lia.
Qed.

(** Read big-endian and written little-endian, four bytes come out in
    reverse order. *)
Lemma to_le_int_from_bytes_big (bs : bytes) :
  struct.to_le (length bs) (int_from_bytes_big bs) = rev bs.
Proof.
  rewrite int_from_bytes_big_rev.
  rewrite <- (length_rev bs) at 1. apply to_le_from_le.
Qed.

Lemma int_from_bytes_big_range (bs : bytes) :
  0 <= int_from_bytes_big bs < 256 ^ Z.of_nat (length bs).
Proof.
  rewrite int_from_bytes_big_rev, <- (length_rev bs).
  apply from_le_range.
Qed.

Lemma pack_field_ok (c : struct.code) (n : Z) :
  0 <= n < 2 ^ (8 * Z.of_nat (struct.width c)) ->
  struct.pack_field c n = Ok (struct.to_le (struct.width c) n).
Proof.
  intros Hn. unfold struct.pack_field.
  destruct (0 <=? n) eqn:E1; [|lia].
  destruct (n <? 2 ^ (8 * Z.of_nat (struct.width c))) eqn:E2; [|lia].
  reflexivity.
Qed.

Lemma pack_field_inv (c : struct.code) (n : Z) (b : bytes) :
  struct.pack_field c n = Ok b ->
  0 <= n < 2 ^ (8 * Z.of_nat (struct.width c))
  /\ b = struct.to_le (struct.width c) n.
Proof.
  unfold struct.pack_field.
  destruct (0 <=? n) eqn:E1; [|discriminate].
  destruct (n <? 2 ^ (8 * Z.of_nat (struct.width c))) eqn:E2; [|discriminate].
  cbn [andb]. intros [= <-]. split; [lia|reflexivity].
Qed.

Lemma pack_nil_inv (p : bytes) : struct.pack [] [] = Ok p -> p = [].
Proof. simpl. now intros [= <-]. Qed.

Lemma pack_cons_inv (c : struct.code) (fmt : list struct.code) (v : Z)
    (vals : list Z) (p : bytes) :
  struct.pack (c :: fmt) (v :: vals) = Ok p ->
  exists r, struct.pack fmt vals = Ok r
    /\ 0 <= v < 2 ^ (8 * Z.of_nat (struct.width c))
    /\ p = struct.to_le (struct.width c) v ++ r.
Proof.
  cbn [struct.pack].
  destruct (struct.pack_field c v) as [b|e] eqn:Ef; [|discriminate].
  destruct (struct.pack fmt vals) as [r|e]; [|discriminate].
  cbn [rbind]. intros [= <-].
  apply pack_field_inv in Ef as [Hr ->]. eauto.
Qed.

Lemma pack_cons_ok (c : struct.code) (fmt : list struct.code) (v : Z)
    (vals : list Z) (r : bytes) :
  0 <= v < 2 ^ (8 * Z.of_nat (struct.width c)) ->
  struct.pack fmt vals = Ok r ->
  struct.pack (c :: fmt) (v :: vals)
  = Ok (struct.to_le (struct.width c) v ++ r).
Proof.
  intros Hv Hr. cbn [struct.pack].
  rewrite (pack_field_ok c v Hv), Hr. reflexivity.
Qed.

(** ** UTF-8 on ASCII strings *)


(** ** The request framer *)

(** [send_request] computes [request_frame] and hands it to [send]; when the
    frame cannot be built the exception leaves the state as it was. *)
Lemma send_request_frame (user_id : bytes) (version : Z) (op_code : OpCode)
    (filename : str) (st : state) :
  send_request user_id version op_code filename st
  = match request_frame user_id version op_code filename (files st) with
    | Ok package => (Returns tt, after_send package st)
    | Raise e => (Raises e, st)
    end.
Proof.
  unfold send_request, request_frame, get_file_bytes, read_file.
  destruct filename as [|c s].
  - unfold bind at 1. unfold bind at 2.
    destruct (struct.pack _ _) as [p|e]; cbn [lift rbind ret raise];
      [|reflexivity].
    destruct (OpCode_eqb op_code SAVE_FILE); reflexivity.
  - unfold bind at 1. unfold bind at 2.
    destruct (struct.pack _ _) as [p|e]; cbn [lift rbind ret raise];
      [|reflexivity].
    unfold bind at 2.
    destruct (utf8.encode (c :: s)) as [name|e]; cbn [lift rbind ret raise];
      [|reflexivity].
    destruct (OpCode_eqb op_code SAVE_FILE); [|reflexivity].
    unfold bind. cbn [ret].
    destruct (files st !! _) as [content|]; [|reflexivity].
    cbn beta iota.
    destruct (struct.pack [struct.I] [len content]) as [size|e]; reflexivity.
Qed.

Lemma OpCode_value_byte (o : OpCode) : 0 <= OpCode_value o < 256.
Proof. destruct o; simpl; lia. Qed.

Lemma OpCode_eqb_eq (a b : OpCode) : OpCode_eqb a b = true <-> a = b.
Proof. destruct a, b; simpl; split; congruence. Qed.

(** What a frame that was built consists of. *)
Lemma request_frame_inv (user_id : bytes) (version : Z) (op_code : OpCode)
    (filename : str) (fs : gmap str bytes) (p : bytes) :
  request_frame user_id version op_code filename fs = Ok p ->
  exists name_part payload,
    p = (header user_id version op_code ++ name_part) ++ payload
    /\ match filename with
       | [] => name_part = []
       | _ => exists name, utf8.encode filename = Ok name
                /\ name_part = struct.to_le 2 (len filename) ++ name
       end
    /\ if OpCode_eqb op_code SAVE_FILE
       then exists content, fs !! filename = Some content
              /\ payload = struct.to_le 4 (len content) ++ content
       else payload = [].
Proof.
  unfold request_frame. intros H.
  assert (Hhead : exists name_part,
    match filename with
    | [] =>
        struct.pack [struct.I; struct.B; struct.B]
          [int_from_bytes_big user_id; version; OpCode_value op_code]
    | _ =>
        rbind (struct.pack [struct.I; struct.B; struct.B; struct.H]
                 [int_from_bytes_big user_id; version; OpCode_value op_code;
                  len filename]) (fun package =>
        rbind (utf8.encode filename) (fun name => Ok (package ++ name)))
    end = Ok (header user_id version op_code ++ name_part)
    /\ match filename with
       | [] => name_part = []
       | _ => exists name, utf8.encode filename = Ok name
                /\ name_part = struct.to_le 2 (len filename) ++ name
       end).
  { destruct filename as [|c s].
    - destruct (struct.pack _ _) as [q|e] eqn:Ep; [|discriminate].
      apply pack_cons_inv in Ep as (r1 & Ep & _ & ->).
      apply pack_cons_inv in Ep as (r2 & Ep & _ & ->).
      apply pack_cons_inv in Ep as (r3 & Ep & _ & ->).
      apply pack_nil_inv in Ep as ->.
      exists []. split; [|reflexivity]. unfold header.
      now rewrite app_nil_r.
    - destruct (struct.pack _ _) as [q|e] eqn:Ep; [|discriminate].
      apply pack_cons_inv in Ep as (r1 & Ep & _ & ->).
      apply pack_cons_inv in Ep as (r2 & Ep & _ & ->).
      apply pack_cons_inv in Ep as (r3 & Ep & _ & ->).
      apply pack_cons_inv in Ep as (r4 & Ep & _ & ->).
      apply pack_nil_inv in Ep as ->.
      cbn [rbind] in H |- *.
      destruct (utf8.encode (c :: s)) as [name|e]; [|discriminate].
      exists (struct.to_le 2 (len (c :: s)) ++ name). split.
      + cbn [rbind]. unfold header. cbn [struct.width struct.to_le].
        now rewrite app_nil_r, <- !app_assoc.
      + eauto. }
  destruct Hhead as (name_part & Ehead & Hname).
  rewrite Ehead in H. cbn [rbind] in H.
  exists name_part. revert H.
  destruct (OpCode_eqb op_code SAVE_FILE); intros H.
  - destruct filename as [|c s]; [discriminate|]. revert H.
    destruct (fs !! _) as [content|]; [|discriminate].
    destruct (struct.pack [struct.I] [len content]) as [size|e] eqn:Ep;
      [|discriminate].
    apply pack_cons_inv in Ep as (r1 & Ep & _ & ->).
    apply pack_nil_inv in Ep as ->.
    cbn [rbind]. intros [= <-].
    exists (struct.to_le 4 (len content) ++ content).
    split; [|split; [exact Hname|eauto]].
    cbn [struct.width]. now rewrite ?app_nil_r, <- ?app_assoc.
  - injection H as <-. exists []. rewrite app_nil_r. auto.
Qed.

Lemma pack_header_ok (user_id : bytes) (version : Z) (op_code : OpCode) :
  length user_id = 4%nat ->
  0 <= version < 256 ->
  struct.pack [struct.I; struct.B; struct.B]
    [int_from_bytes_big user_id; version; OpCode_value op_code]
  = Ok (rev user_id ++ [byte_of version; byte_of (OpCode_value op_code)]).
Proof.
  intros Hid Hver.
  pose proof (int_from_bytes_big_range user_id) as Hrange.
  pose proof (to_le_int_from_bytes_big user_id) as Hrev.
  rewrite Hid in Hrange, Hrev.
  pose proof (OpCode_value_byte op_code) as Hop.
  rewrite (pack_cons_ok struct.I _ _ _
             [byte_of version; byte_of (OpCode_value op_code)]).
  - cbn [struct.width]. now rewrite Hrev.
  - cbn [struct.width]. change (2 ^ (8 * Z.of_nat 4)) with (256 ^ 4). lia.
  - rewrite (pack_cons_ok struct.B _ _ _ [byte_of (OpCode_value op_code)]).
    + reflexivity.
    + cbn [struct.width]. change (2 ^ (8 * Z.of_nat 1)) with 256. lia.
    + rewrite (pack_cons_ok struct.B _ _ _ []).
      * reflexivity.
      * cbn [struct.width]. change (2 ^ (8 * Z.of_nat 1)) with 256. lia.
      * reflexivity.
Qed.

Lemma pack_header_name_ok (user_id : bytes) (version : Z) (op_code : OpCode)
    (name_len : Z) :
  length user_id = 4%nat ->
  0 <= version < 256 ->
  0 <= name_len < 65536 ->
  struct.pack [struct.I; struct.B; struct.B; struct.H]
    [int_from_bytes_big user_id; version; OpCode_value op_code; name_len]
  = Ok ((rev user_id ++ [byte_of version; byte_of (OpCode_value op_code)])
        ++ struct.to_le 2 name_len).
Proof.
  intros Hid Hver Hlen.
  pose proof (int_from_bytes_big_range user_id) as Hrange.
  pose proof (to_le_int_from_bytes_big user_id) as Hrev.
  rewrite Hid in Hrange, Hrev.
  pose proof (OpCode_value_byte op_code) as Hop.
  rewrite (pack_cons_ok struct.I _ _ _
             ([byte_of version; byte_of (OpCode_value op_code)]
              ++ struct.to_le 2 name_len)).
  - cbn [struct.width]. now rewrite Hrev, <- app_assoc.
  - cbn [struct.width]. change (2 ^ (8 * Z.of_nat 4)) with (256 ^ 4). lia.
  - rewrite (pack_cons_ok struct.B _ _ _
               ([byte_of (OpCode_value op_code)] ++ struct.to_le 2 name_len)).
    + reflexivity.
    + cbn [struct.width]. change (2 ^ (8 * Z.of_nat 1)) with 256. lia.
    + rewrite (pack_cons_ok struct.B _ _ _ (struct.to_le 2 name_len)).
      * reflexivity.
      * cbn [struct.width]. change (2 ^ (8 * Z.of_nat 1)) with 256. lia.
      * rewrite (pack_cons_ok struct.H _ _ _ []).
        -- cbn [struct.width]. now rewrite app_nil_r.
        -- cbn [struct.width]. change (2 ^ (8 * Z.of_nat 2)) with 65536. lia.
        -- reflexivity.
Qed.


Lemma header_length (user_id : bytes) (version : Z) (op_code : OpCode) :
  length (header user_id version op_code) = 6%nat.
Proof.
  unfold header. rewrite length_app, to_le_length. reflexivity.
Qed.

Lemma header_rev (user_id : bytes) (version : Z) (op_code : OpCode) :
  length user_id = 4%nat ->
  header user_id version op_code
  = rev user_id ++ [byte_of version; byte_of (OpCode_value op_code)].
Proof.
  intros Hid. unfold header.
  now rewrite <- (to_le_int_from_bytes_big user_id), Hid.
Qed.




(** C2, as amended.  For a 4-byte user id, the first 4 bytes of every frame
    [send_request] hands to the socket are the user id's bytes in reverse
    order: the id is read as a big-endian integer and written
    little-endian. *)
Theorem user_id_on_the_wire (user_id : bytes) (version : Z) (op_code : OpCode)
    (filename : str) (st st' : state) :
  length user_id = 4%nat ->
  send_request user_id version op_code filename st = (Returns tt, st') ->
  exists frame,
    st' = after_send frame st /\ take 4 frame = rev user_id.
Proof.
  intros Hid. rewrite send_request_frame.
  destruct (request_frame _ _ _ _ _) as [p|e] eqn:E; [|discriminate].
  intros [= <-]. exists p. split; [reflexivity|].
  apply request_frame_inv in E as (name_part & payload & -> & _).
  rewrite (header_rev _ _ _ Hid), <- !app_assoc.
  rewrite take_app_length'; [reflexivity|].
  now rewrite length_rev.
Qed.

Lemma user_id_on_the_wire_witness :
  exists frame,
    after_send [x04; x03; x02; x01; x01; xca] (scenario [] ∅)
    = after_send frame (scenario [] ∅)
    /\ take 4 frame = rev [x01; x02; x03; x04].
Proof.
  apply (user_id_on_the_wire [x01; x02; x03; x04] 1 LIST_FILES []
           (scenario [] ∅)).
  - reflexivity.
  - vm_compute. reflexivity.
Defined.

(** C2, as stated, fails: the user id 01 02 03 04 goes out as 04 03 02 01. *)
Lemma user_id_on_the_wire_counterexample :
  send_request [x01; x02; x03; x04] 1 LIST_FILES [] (scenario [] ∅)
  = (Returns tt, after_send [x04; x03; x02; x01; x01; xca] (scenario [] ∅))
  /\ take 4 [x04; x03; x02; x01; x01; xca] <> [x01; x02; x03; x04].
Proof.
  split; [vm_compute; reflexivity|]. discriminate.
Qed.

(** C5, as amended.  In every frame [send_request] hands to the socket, the
    NameLen and Name fields follow the 6-byte header exactly when the
    filename argument is not empty, whatever the opcode; the opcode decides
    only whether FileSize and the file's bytes follow. *)
Theorem name_fields_follow_filename (user_id : bytes) (version : Z)
    (op_code : OpCode) (filename : str) (st st' : state) :
  send_request user_id version op_code filename st = (Returns tt, st') ->
  exists name_part payload,
    st' = after_send ((header user_id version op_code ++ name_part) ++ payload) st
    /\ length (header user_id version op_code) = 6%nat
    /\ (name_part = [] <-> filename = [])
    /\ (filename <> [] ->
        exists name, utf8.encode filename = Ok name
          /\ name_part = struct.to_le 2 (len filename) ++ name)
    /\ (payload = [] <-> op_code <> SAVE_FILE).
Proof.
  rewrite send_request_frame.
  destruct (request_frame _ _ _ _ _) as [p|e] eqn:E; [|discriminate].
  intros [= <-].
  apply request_frame_inv in E as (name_part & payload & -> & Hname & Hpay).
  exists name_part, payload.
  split; [reflexivity|]. split; [apply header_length|].
  split; [|split].
  - destruct filename as [|c s]; [now split|].
    destruct Hname as (name & _ & ->). split; [|discriminate].
    intros H. apply (f_equal (@length byte)) in H.
    rewrite length_app, to_le_length in H. discriminate H.
  - intros Hne. destruct filename as [|c s]; [congruence|exact Hname].
  - destruct (OpCode_eqb op_code SAVE_FILE) eqn:Eop.
    + apply OpCode_eqb_eq in Eop. destruct Hpay as (content & _ & ->).
      split; [|congruence].
      intros H. apply (f_equal (@length byte)) in H.
      rewrite length_app, to_le_length in H. discriminate H.
    + split; [|now intros _].
      intros _ ->. discriminate Eop.
Qed.

Lemma name_fields_follow_filename_witness :
  exists name_part payload,
    after_send [x04; x03; x02; x01; x01; xca; x01; x00; x61] (scenario [] ∅)
    = after_send ((header [x01; x02; x03; x04] 1 LIST_FILES ++ name_part)
                  ++ payload) (scenario [] ∅)
    /\ length (header [x01; x02; x03; x04] 1 LIST_FILES) = 6%nat
    /\ (name_part = [] <-> lit "a" = [])
    /\ (lit "a" <> [] ->
        exists name, utf8.encode (lit "a") = Ok name
          /\ name_part = struct.to_le 2 (len (lit "a")) ++ name)
    /\ (payload = [] <-> LIST_FILES <> SAVE_FILE).
Proof.
  apply (name_fields_follow_filename [x01; x02; x03; x04] 1 LIST_FILES
           (lit "a") (scenario [] ∅)).
  vm_compute. reflexivity.
Defined.

(** C5, as stated, fails in both directions: a Retrieve request with an
    empty filename carries no NameLen and no Name (it is the bare 6-byte
    header), and a List request given the filename "a" carries both. *)
Lemma name_fields_follow_filename_counterexample :
  send_request [x01; x02; x03; x04] 1 RETRIEVE_FILE [] (scenario [] ∅)
  = (Returns tt,
     after_send (header [x01; x02; x03; x04] 1 RETRIEVE_FILE) (scenario [] ∅))
  /\ send_request [x01; x02; x03; x04] 1 LIST_FILES (lit "a") (scenario [] ∅)
     = (Returns tt,
        after_send (header [x01; x02; x03; x04] 1 LIST_FILES
                    ++ struct.to_le 2 1 ++ [x61]) (scenario [] ∅)).
Proof.
  split; vm_compute; reflexivity.
Qed.

(** C6.  A Save request whose named local file does not exist raises before
    anything is handed to the socket: the state, and with it the bytes sent,
    is unchanged.  When the header fields are well formed (the user id fits
    4 bytes, the version one byte, the filename is encodable and shorter than
    65536 characters) the exception is FileNotFoundError. *)
Theorem save_missing_file_sends_nothing (user_id : bytes) (version : Z)
    (filename : str) (st : state) :
  files st !! filename = None ->
  exists e,
    send_request user_id version SAVE_FILE filename st = (Raises e, st)
    /\ (length user_id = 4%nat ->
        0 <= version < 256 ->
        len filename < 65536 ->
        (exists name, utf8.encode filename = Ok name) ->
        e = FileNotFoundError).
Proof.
  intros Hmissing. rewrite send_request_frame.
  unfold request_frame. cbn [OpCode_eqb]. rewrite Hmissing.
  destruct filename as [|c s].
  - destruct (struct.pack _ _) as [p|e] eqn:Ep; cbn [rbind]; eauto.
    exists e. split; [reflexivity|].
    intros Hid Hver _ _.
    rewrite (pack_header_ok _ _ _ Hid Hver) in Ep. discriminate Ep.
  - destruct (struct.pack _ _) as [p|e] eqn:Ep; cbn [rbind].
    + destruct (utf8.encode (c :: s)) as [name|e] eqn:En; cbn [rbind]; eauto.
      exists e. split; [reflexivity|].
      intros _ _ _ [name Hname]. discriminate Hname.
    + exists e. split; [reflexivity|].
      intros Hid Hver Hlen _.
      rewrite (pack_header_name_ok _ _ _ _ Hid Hver) in Ep;
        [discriminate Ep|].
      unfold len in *. lia.
Qed.

Lemma save_missing_file_sends_nothing_witness :
  exists e,
    send_request [x01; x02; x03; x04] 1 SAVE_FILE (lit "gone.txt")
      (scenario [] ∅)
    = (Raises e, scenario [] ∅)
    /\ (length [x01; x02; x03; x04] = 4%nat ->
        0 <= 1 < 256 ->
        len (lit "gone.txt") < 65536 ->
        (exists name, utf8.encode (lit "gone.txt") = Ok name) ->
        e = FileNotFoundError).
Proof.
  apply (save_missing_file_sends_nothing [x01; x02; x03; x04] 1
           (lit "gone.txt") (scenario [] ∅)).
  vm_compute. reflexivity.
Defined.

(** ** Reading from the stream *)

(** A read returns a prefix of the bytes still to arrive and leaves the
    rest queued. *)
Lemma recv_segs_concat (n : nat) (segs : list bytes) :
  fst (recv_segs n segs) ++ concat (snd (recv_segs n segs)) = concat segs.
Proof.
  induction segs as [|seg rest IH]; [reflexivity|].
  destruct seg as [|b seg']; [exact IH|].
  cbn [recv_segs fst snd].
  destruct (drop n (b :: seg')) as [|d more] eqn:E.
  - cbn [concat]. f_equal.
    rewrite <- (take_drop n (b :: seg')) at 2. now rewrite E, app_nil_r.
  - cbn [concat]. rewrite <- E, app_assoc, take_drop. reflexivity.
Qed.

Lemma recv_segs_length (n : nat) (segs : list bytes) :
  (length (fst (recv_segs n segs)) <= n)%nat.
Proof.
  induction segs as [|seg rest IH]; [simpl; lia|].
  destruct seg as [|b seg']; [exact IH|].
  cbn [recv_segs fst]. rewrite length_take. lia.
Qed.

(** On an exhausted stream a read returns the empty bytes object. *)
Lemma recv_segs_exhausted (n : nat) (segs : list bytes) :
  concat segs = [] -> recv_segs n segs = ([], []).
Proof.
  induction segs as [|seg rest IH]; [reflexivity|].
  destruct seg as [|b seg']; [exact IH|discriminate].
Qed.

(** A read of at least one byte returns no bytes only when the stream is
    exhausted. *)
Lemma recv_segs_empty (n : nat) (segs : list bytes) :
  (0 < n)%nat -> fst (recv_segs n segs) = [] -> concat segs = [].
Proof.
  intros Hn. induction segs as [|seg rest IH]; [reflexivity|].
  destruct seg as [|b seg']; [exact IH|].
  cbn [recv_segs fst]. destruct n; [lia|discriminate].
Qed.

Lemma recv_eq (bufsize : Z) (s : socket) (f : gmap str bytes)
    (c : list output) (n : str -> Z -> option (list bytes)) :
  recv bufsize (State s f c n)
  = (Returns (fst (recv_segs (Z.to_nat bufsize) (incoming s))),
     State (Socket (sent s) (snd (recv_segs (Z.to_nat bufsize) (incoming s)))
              (is_open s)) f c n).
Proof.
  unfold recv. cbn [sock]. now destruct (recv_segs _ _).
Qed.

Lemma buffer_size_nat : (0 < Z.to_nat buffer_size)%nat.
Proof. unfold buffer_size. change (2 ^ 12) with 4096. lia. Qed.

Lemma buffer_size_bound (chunk : bytes) :
  (length chunk <= Z.to_nat buffer_size)%nat -> len chunk <= buffer_size.
Proof.
  unfold buffer_size, len. change (2 ^ 12) with 4096. lia.
Qed.

(** ** The receive loop *)

(** With more fuel than bytes still to arrive, the loop returns; it appends
    to the file a prefix [written] of the stream, nothing when the declared
    size is not positive, fewer than one buffer beyond the declared size, and
    the whole stream when that is shorter than the declared size. *)
Lemma receive_loop_spec (fuel : nat) (filename : str) :
  forall (file_size : Z) (s : socket) (f : gmap str bytes) (c : list output)
         (n : str -> Z -> option (list bytes)) (content : bytes),
    (length (concat (incoming s)) < fuel)%nat ->
    f !! filename = Some content ->
    exists written rest,
      receive_loop fuel filename file_size (State s f c n)
      = (Returns tt,
         State (Socket (sent s) rest (is_open s))
           (<[filename := content ++ written]> f) c n)
      /\ written ++ concat rest = concat (incoming s)
      /\ (file_size <= 0 -> written = [])
      /\ (0 < file_size -> len written < file_size + buffer_size)
      /\ (len written < file_size -> concat rest = []).
Proof.
  induction fuel as [|fuel IH]; intros file_size s f c n content Hfuel Hfile;
    [lia|].
  cbn [receive_loop].
  destruct (0 <? file_size) eqn:Epos.
  - unfold bind at 1. rewrite recv_eq.
    pose proof (recv_segs_concat (Z.to_nat buffer_size) (incoming s)) as Hcat.
    pose proof (recv_segs_length (Z.to_nat buffer_size) (incoming s)) as Hlen.
    pose proof (recv_segs_empty (Z.to_nat buffer_size) (incoming s)
                  buffer_size_nat) as Hempty.
    destruct (recv_segs (Z.to_nat buffer_size) (incoming s))
      as [chunk segs'] eqn:Erecv.
    cbn [fst snd] in *.
    destruct chunk as [|b chunk'].
    + specialize (Hempty eq_refl).
      rewrite (recv_segs_exhausted _ _ Hempty) in Erecv.
      injection Erecv as <-.
      exists [], []. split; [|split; [|split; [|split]]].
      * unfold ret. rewrite app_nil_r, (insert_id f filename content Hfile).
        reflexivity.
      * now rewrite Hempty.
      * reflexivity.
      * intros _. unfold len, buffer_size. simpl length.
        change (2 ^ 12) with 4096. lia.
      * reflexivity.
    + unfold bind, file_write, set_files.
      cbn [sock files console net].
      set (chunk := b :: chunk') in *.
      destruct (IH (file_size - len chunk)
                  (Socket (sent s) segs' (is_open s))
                  (alter (fun content => content ++ chunk) filename f) c n
                  (content ++ chunk))
        as (written & rest & Hrun & Hpre & Hzero & Hbound & Hshort).
      * cbn [incoming]. apply (f_equal (@length byte)) in Hcat.
        rewrite length_app in Hcat. subst chunk. simpl length in Hcat. lia.
      * rewrite lookup_alter_eq, Hfile. reflexivity.
      * cbn [sent is_open incoming] in *.
        exists (chunk ++ written), rest. split; [|split; [|split; [|split]]].
        -- rewrite Hrun, insert_alter_eq, app_assoc. reflexivity.
        -- rewrite <- app_assoc, Hpre. exact Hcat.
        -- lia.
        -- intros _. apply buffer_size_bound in Hlen.
           unfold len in *. rewrite length_app.
           destruct (Z.le_gt_cases (file_size - Z.of_nat (length chunk)) 0)
             as [Hle|Hgt].
           ++ rewrite (Hzero Hle). cbn [length]. apply Z.ltb_lt in Epos. lia.
           ++ specialize (Hbound ltac:(lia)). lia.
        -- intros Hlt. apply Hshort. unfold len in *.
           rewrite length_app in Hlt. lia.
  - exists [], (incoming s). split; [|split; [|split; [|split]]].
    + unfold ret. rewrite app_nil_r, (insert_id f filename content Hfile).
      now destruct s.
    + reflexivity.
    + reflexivity.
    + lia.
    + unfold len. simpl length. lia.
Qed.

(** ** receive_file *)

(** Once the size field is read and decoded, [receive_file] returns; the
    file holds a prefix [written] of the stream that follows the size
    field. *)
Lemma receive_file_spec (filename : str) (st st1 : state) (buf : bytes)
    (fields : list Z) :
  filename <> [] ->
  recv (FieldSize_value FILE_SIZE) st = (Returns buf, st1) ->
  struct.unpack [struct.I] buf = Ok fields ->
  exists written rest,
    receive_file filename st
    = (Returns tt,
       State (Socket (sent (sock st)) rest (is_open (sock st)))
         (<[filename := written]> (files st)) (console st) (net st))
    /\ written ++ concat rest = concat (incoming (sock st1))
    /\ (nth 0 fields 0 <= 0 -> written = [])
    /\ (0 < nth 0 fields 0 -> len written < nth 0 fields 0 + buffer_size)
    /\ (len written < nth 0 fields 0 -> concat rest = []).
Proof.
  intros Hname Hrecv Hunpack.
  destruct st as [s f c n]. rewrite recv_eq in Hrecv.
  unfold receive_file. unfold bind at 1. rewrite recv_eq.
  change (FieldSize_value FILE_SIZE) with 4 in *.
  injection Hrecv as <- <-.
  unfold bind at 1. rewrite Hunpack. cbn [lift ret].
  unfold bind at 1, open_wb, set_files.
  destruct filename as [|ch name]; [congruence|].
  cbn [sock files console net pending incoming].
  destruct (receive_loop_spec
              (S (length (concat (snd (recv_segs (Z.to_nat 4)
                                         (incoming s))))))
              (ch :: name) (nth 0 fields 0)
              (Socket (sent s) (snd (recv_segs (Z.to_nat 4) (incoming s)))
                 (is_open s))
              (<[ch :: name := []]> f) c n [])
    as (written & rest & Hrun & Hpre & Hzero & Hbound & Hshort).
  - cbn [incoming]. lia.
  - apply lookup_insert_eq.
  - exists written, rest. cbn [sent is_open incoming] in *.
    split; [|auto].
    unfold pending. cbn [incoming].
    rewrite Hrun, insert_insert_eq. reflexivity.
Qed.

(** [receive_file] never fails to terminate. *)
Lemma receive_file_never_diverges (filename : str) :
  terminates (receive_file filename).
Proof.
  intros st.
  destruct (recv (FieldSize_value FILE_SIZE) st) as [r st1] eqn:Hrecv.
  assert (Hr : exists buf, r = Returns buf).
  { destruct st as [s f c n]. rewrite recv_eq in Hrecv.
    injection Hrecv as <- _. eauto. }
  destruct Hr as [buf ->].
  destruct (struct.unpack [struct.I] buf) as [fields|e] eqn:Hunpack.
  - destruct filename as [|ch name].
    + unfold receive_file. unfold bind at 1. rewrite Hrecv.
      unfold bind at 1. rewrite Hunpack. cbn [lift ret].
      unfold bind, open_wb. discriminate.
    + destruct (receive_file_spec (ch :: name) st st1 buf fields)
        as (written & rest & -> & _); [discriminate|assumption..|].
      discriminate.
  - unfold receive_file. unfold bind at 1. rewrite Hrecv.
    unfold bind at 1. rewrite Hunpack. cbn [lift raise]. discriminate.
Qed.

(** C3, as amended.  [receive_file] terminates on every stream.  When the
    size field decodes to L, it returns, and the bytes it writes are a prefix
    of what the stream delivers after the size field: none when L is 0,
    fewer than L + 4096 in every case (a read is not capped at the count
    that remains), and at most L whenever the stream delivers at most L
    bytes after the size field. *)
Theorem receive_file_terminates_bounded (filename : str) (st : state) :
  fst (receive_file filename st) <> Diverges
  /\ forall (buf : bytes) (st1 : state) (L : Z),
       filename <> [] ->
       recv (FieldSize_value FILE_SIZE) st = (Returns buf, st1) ->
       struct.unpack [struct.I] buf = Ok [L] ->
       exists written unread,
         fst (receive_file filename st) = Returns tt
         /\ files (snd (receive_file filename st)) !! filename = Some written
         /\ written ++ unread = concat (incoming (sock st1))
         /\ (L = 0 -> written = [])
         /\ len written < L + buffer_size
         /\ (len (concat (incoming (sock st1))) <= L -> len written <= L).
Proof.
  split; [apply receive_file_never_diverges|].
  intros buf st1 L Hname Hrecv Hunpack.
  destruct (receive_file_spec filename st st1 buf [L] Hname Hrecv Hunpack)
    as (written & rest & Hrun & Hpre & Hzero & Hbound & _).
  cbn [nth] in *.
  assert (HL : 0 <= L).
  { unfold struct.unpack in Hunpack.
    destruct (Nat.eqb _ _); [|discriminate].
    injection Hunpack as <-. apply from_le_range. }
  exists written, (concat rest). rewrite Hrun. cbn [fst snd files].
  split; [reflexivity|]. split; [apply lookup_insert_eq|].
  split; [exact Hpre|]. split; [intros ->; now apply Hzero|]. split.
  - destruct (Z.eq_dec L 0) as [->|Hne].
    + rewrite Hzero by lia. unfold len, buffer_size. simpl length.
      change (2 ^ 12) with 4096. lia.
    + apply Hbound. lia.
  - intros Hle. rewrite <- Hpre in Hle. unfold len in *.
    rewrite length_app in Hle. lia.
Qed.

Lemma receive_file_terminates_bounded_witness :
  fst (receive_file (lit "out")
         (scenario [[x03; x00; x00; x00; x61]; [x62]] ∅)) <> Diverges
  /\ exists written unread,
       fst (receive_file (lit "out")
              (scenario [[x03; x00; x00; x00; x61]; [x62]] ∅)) = Returns tt
       /\ files (snd (receive_file (lit "out")
                        (scenario [[x03; x00; x00; x00; x61]; [x62]] ∅)))
          !! lit "out" = Some written
       /\ written ++ unread = [x61; x62]
       /\ (3 = 0 -> written = [])
       /\ len written < 3 + buffer_size
       /\ (len [x61; x62] <= 3 -> len written <= 3).
Proof.
  destruct (receive_file_terminates_bounded (lit "out")
              (scenario [[x03; x00; x00; x00; x61]; [x62]] ∅)) as [Hterm Hwr].
  split; [exact Hterm|].
  apply (Hwr [x03; x00; x00; x00]
           (State (Socket [] [[x61]; [x62]] true) ∅ [] (fun _ _ => None)) 3).
  - discriminate.
  - vm_compute. reflexivity.
  - vm_compute. reflexivity.
Defined.

(** C3, as stated, fails: with declared length 1 and a peer that delivers
    two bytes in one segment, both bytes are written. *)
Lemma receive_file_terminates_bounded_counterexample :
  struct.unpack [struct.I] [x01; x00; x00; x00] = Ok [1]
  /\ fst (receive_file (lit "out")
            (scenario [[x01; x00; x00; x00]; [x61; x62]] ∅)) = Returns tt
  /\ files (snd (receive_file (lit "out")
                   (scenario [[x01; x00; x00; x00]; [x61; x62]] ∅)))
     !! lit "out" = Some [x61; x62]
  /\ ~ len [x61; x62] <= 1.
Proof.
  split; [vm_compute; reflexivity|].
  split; [vm_compute; reflexivity|].
  split; [vm_compute; reflexivity|].
  unfold len. simpl. lia.
Qed.

(** C4.  If, after the size field has decoded to L, the stream ends before L
    bytes have arrived, [receive_file] returns normally: the file holds
    exactly the bytes that arrived, fewer than L, the stream is exhausted,
    and nothing is raised or reported. *)
Theorem receive_file_truncated (filename : str) (st st1 : state)
    (buf : bytes) (L : Z) :
  filename <> [] ->
  recv (FieldSize_value FILE_SIZE) st = (Returns buf, st1) ->
  struct.unpack [struct.I] buf = Ok [L] ->
  len (concat (incoming (sock st1))) < L ->
  exists st',
    receive_file filename st = (Returns tt, st')
    /\ files st' !! filename = Some (concat (incoming (sock st1)))
    /\ len (concat (incoming (sock st1))) < L
    /\ concat (incoming (sock st')) = []
    /\ console st' = console st.
Proof.
  intros Hname Hrecv Hunpack Hshort.
  destruct (receive_file_spec filename st st1 buf [L] Hname Hrecv Hunpack)
    as (written & rest & Hrun & Hpre & _ & _ & Hend).
  cbn [nth] in *.
  assert (Hrest : concat rest = []).
  { apply Hend. rewrite <- Hpre in Hshort. unfold len in *.
    rewrite length_app in Hshort. lia. }
  rewrite Hrest, app_nil_r in Hpre. subst written.
  eexists. split; [exact Hrun|].
  cbn [files sock incoming console].
  split; [apply lookup_insert_eq|]. auto.
Qed.

Lemma receive_file_truncated_witness :
  exists st',
    receive_file (lit "out") (scenario [[x05; x00; x00; x00; x61]; [x62]] ∅)
    = (Returns tt, st')
    /\ files st' !! lit "out" = Some [x61; x62]
    /\ len [x61; x62] < 5
    /\ concat (incoming (sock st')) = []
    /\ console st' = [].
Proof.
  apply (receive_file_truncated (lit "out")
           (scenario [[x05; x00; x00; x00; x61]; [x62]] ∅)
           (State (Socket [] [[x61]; [x62]] true) ∅ [] (fun _ _ => None))
           [x05; x00; x00; x00] 5).
  - discriminate.
  - vm_compute. reflexivity.
  - vm_compute. reflexivity.
  - vm_compute. reflexivity.
Defined.

(** ** Composing statements *)

Section Frame.

Variable R : state -> state -> Prop.
Hypothesis R_refl : forall st, R st st.
Hypothesis R_trans : forall a b c, R a b -> R b c -> R a c.

Lemma preserves_ret {A} (a : A) : preserves R (ret a).
Proof. intros st. apply R_refl. Qed.

Lemma preserves_lift {A} (r : result A) : preserves R (lift r).
Proof. intros st. destruct r; apply R_refl. Qed.

Lemma preserves_bind {A B} (m : M A) (k : A -> M B) :
  preserves R m -> (forall a, preserves R (k a)) -> preserves R (bind m k).
Proof.
  intros Hm Hk st. unfold bind.
  specialize (Hm st). destruct (m st) as [[a|e|] st1]; cbn [snd] in *.
  - eapply R_trans; [exact Hm|]. apply Hk.
  - exact Hm.
  - exact Hm.
Qed.

End Frame.

Lemma terminates_ret {A} (a : A) : terminates (ret a).
Proof. intros st. discriminate. Qed.

Lemma terminates_lift {A} (r : result A) : terminates (lift r).
Proof. intros st. destruct r; discriminate. Qed.

Lemma terminates_bind {A B} (m : M A) (k : A -> M B) :
  terminates m -> (forall a, terminates (k a)) -> terminates (bind m k).
Proof.
  intros Hm Hk st. unfold bind.
  specialize (Hm st). destruct (m st) as [[a|e|] st1]; cbn [fst] in *.
  - apply Hk.
  - discriminate.
  - congruence.
Qed.

Lemma terminates_recv (bufsize : Z) : terminates (recv bufsize).
Proof. intros [s f c n]. rewrite recv_eq. discriminate. Qed.

Lemma terminates_print (line : str) : terminates (print line).
Proof. intros st. discriminate. Qed.

Lemma terminates_send_request (user_id : bytes) (version : Z)
    (op_code : OpCode) (filename : str) :
  terminates (send_request user_id version op_code filename).
Proof.
  intros st. rewrite send_request_frame.
  destruct (request_frame _ _ _ _ _); discriminate.
Qed.

Lemma terminates_receive_status : terminates receive_status.
Proof.
  apply terminates_bind; [apply terminates_recv|]. intros header.
  apply terminates_bind; [apply terminates_lift|]. intros fields.
  apply terminates_ret.
Qed.

Lemma terminates_receive_filename : terminates receive_filename.
Proof.
  apply terminates_bind; [apply terminates_recv|]. intros buf.
  apply terminates_bind; [apply terminates_lift|]. intros fields.
  apply terminates_bind; [apply terminates_recv|]. intros name.
  apply terminates_bind; [apply terminates_lift|]. intros filename.
  apply terminates_ret.
Qed.

Lemma terminates_read_file (filename : str) : terminates (read_file filename).
Proof.
  intros st. unfold read_file.
  destruct filename; [discriminate|].
  destruct (files st !! _); discriminate.
Qed.

Lemma terminates_request_file_list (user_id : bytes) (version : Z) :
  terminates (request_file_list user_id version).
Proof.
  apply terminates_bind; [apply terminates_send_request|]. intros _.
  apply terminates_bind; [apply terminates_receive_status|]. intros status.
  destruct (status =? _).
  - apply terminates_bind; [apply terminates_receive_filename|].
    intros filename.
    apply terminates_bind; [apply receive_file_never_diverges|]. intros _.
    apply terminates_bind; [apply terminates_read_file|]. intros content.
    apply terminates_bind; [apply terminates_print|]. intros _.
    apply terminates_bind; [apply terminates_lift|]. intros text.
    apply terminates_print.
  - destruct (status =? _); apply terminates_print.
Qed.

Lemma terminates_request_file_save (user_id : bytes) (version : Z)
    (filename : str) :
  terminates (request_file_save user_id version filename).
Proof.
  apply terminates_bind; [apply terminates_send_request|]. intros _.
  apply terminates_bind; [apply terminates_receive_status|]. intros status.
  destruct (status =? _).
  - apply terminates_bind; [apply terminates_receive_filename|].
    intros name. apply terminates_print.
  - destruct (status =? _); apply terminates_print.
Qed.

Lemma terminates_request_file_retrieve (user_id : bytes) (version : Z)
    (filename : str) :
  terminates (request_file_retrieve user_id version filename).
Proof.
  apply terminates_bind; [apply terminates_send_request|]. intros _.
  apply terminates_bind; [apply terminates_receive_status|]. intros status.
  destruct (status =? _).
  - apply terminates_bind; [apply terminates_receive_filename|].
    intros name.
    apply terminates_bind; [apply receive_file_never_diverges|]. intros _.
    apply terminates_print.
  - destruct (status =? _); apply terminates_print.
Qed.

Lemma terminates_request_file_delete (user_id : bytes) (version : Z)
    (filename : str) :
  terminates (request_file_delete user_id version filename).
Proof.
  apply terminates_bind; [apply terminates_send_request|]. intros _.
  apply terminates_bind; [apply terminates_receive_status|]. intros status.
  destruct (status =? _).
  - apply terminates_bind; [apply terminates_receive_filename|].
    intros name. apply terminates_print.
  - destruct (status =? _); apply terminates_print.
Qed.

(** ** The orchestrator *)

(** Whatever the request function does, [request] raises nothing: it returns
    with the socket closed, unless the request function itself does not
    terminate. *)
Lemma request_outcome (request_function : request_fn) (server_ip : str)
    (server_port : Z) (user_id : bytes) (st : state) :
  (fst (request request_function server_ip server_port user_id st) = Returns tt
   /\ is_open (sock (snd (request request_function server_ip server_port
                            user_id st))) = false)
  \/ fst (request request_function server_ip server_port user_id st) = Diverges.
Proof.
  unfold request, with_socket, try_except, socket_socket, bind, connect.
  unfold set_sock. cbn [net sock sent is_open files console].
  destruct (net st server_ip server_port) as [segs|].
  - destruct (fn_call request_function user_id _) as [[[]|e|] st1].
    + left. split; reflexivity.
    + left. split; reflexivity.
    + right. reflexivity.
  - left. split; reflexivity.
Qed.

Lemma request_terminates (request_function : request_fn) (server_ip : str)
    (server_port : Z) (user_id : bytes) :
  terminates (fn_call request_function user_id) ->
  terminates (request request_function server_ip server_port user_id).
Proof.
  intros Hf st.
  unfold request, with_socket, try_except, socket_socket, bind, connect.
  unfold set_sock. cbn [net sock sent is_open files console].
  destruct (net st server_ip server_port) as [segs|].
  - specialize (Hf (State (Socket [] segs true) (files st) (console st)
                      (net st))).
    cbn [files console net] in *.
    destruct (fn_call request_function user_id _) as [[[]|e|] st1].
    + discriminate.
    + discriminate.
    + now cbn [fst] in Hf.
  - discriminate.
Qed.

(** C8.  An exception raised by connect or by the request function is caught
    inside [request]: for every request function the call either returns
    normally with the socket closed or the request function does not
    terminate.  The four operations of the client always terminate, so for
    them [request] returns normally with the socket closed, on every path. *)
Theorem request_catches_and_closes :
  (forall (request_function : request_fn) (server_ip : str) (server_port : Z)
          (user_id : bytes) (st : state),
     (fst (request request_function server_ip server_port user_id st)
      = Returns tt
      /\ is_open (sock (snd (request request_function server_ip server_port
                               user_id st))) = false)
     \/ fst (request request_function server_ip server_port user_id st)
        = Diverges)
  /\ forall (version : Z) (filename : str),
       Forall (fun request_function =>
                 forall (server_ip : str) (server_port : Z) (user_id : bytes)
                        (st : state),
                   fst (request request_function server_ip server_port
                          user_id st) = Returns tt
                   /\ is_open (sock (snd (request request_function server_ip
                                            server_port user_id st))) = false)
         [op_list version; op_save version filename;
          op_retrieve version filename; op_delete version filename].
Proof.
  split; [apply request_outcome|].
  intros version filename.
  assert (Hall : forall f, (forall user_id, terminates (fn_call f user_id)) ->
            forall server_ip server_port user_id st,
              fst (request f server_ip server_port user_id st) = Returns tt
              /\ is_open (sock (snd (request f server_ip server_port
                                       user_id st))) = false).
  { intros f Hf server_ip server_port user_id st.
    destruct (request_outcome f server_ip server_port user_id st)
      as [H|H]; [exact H|].
    exfalso. now apply (request_terminates f server_ip server_port user_id
                          (Hf user_id) st). }
  apply List.Forall_cons;
    [apply Hall; intros user_id; apply terminates_request_file_list|].
  apply List.Forall_cons;
    [apply Hall; intros user_id; apply terminates_request_file_save|].
  apply List.Forall_cons;
    [apply Hall; intros user_id; apply terminates_request_file_retrieve|].
  apply List.Forall_cons;
    [apply Hall; intros user_id; apply terminates_request_file_delete|].
  apply List.Forall_nil.
Qed.

(** ** Parsing a response *)

Lemma after_send_same (data : bytes) (st : state) :
  same_but_socket st (after_send data st)
  /\ incoming (sock (after_send data st)) = incoming (sock st).
Proof. repeat split. Qed.

(** On an exhausted stream [receive_filename] raises struct.error: the two
    bytes of NameLen are not there. *)
Lemma receive_filename_exhausted (st : state) :
  concat (incoming (sock st)) = [] ->
  exists st',
    receive_filename st = (Raises StructError, st') /\ same_but_socket st st'.
Proof.
  intros Hend. destruct st as [s f c n]. cbn [sock] in Hend.
  exists (State (Socket (sent s) [] (is_open s)) f c n).
  split; [|repeat split].
  unfold receive_filename, bind. rewrite recv_eq.
  rewrite (recv_segs_exhausted _ _ Hend). reflexivity.
Qed.

(** Reading the status when exactly the three bytes of a header are still to
    arrive: either they come in one read and the stream is then exhausted,
    or the read is short and struct.error is raised. *)
Lemma receive_status_last_header (st : state) (v b1 b2 : byte) :
  concat (incoming (sock st)) = [v; b1; b2] ->
  exists st',
    same_but_socket st st'
    /\ (receive_status st = (Raises StructError, st')
        \/ (receive_status st = (Returns (struct.from_le [b1; b2]), st')
            /\ concat (incoming (sock st')) = [])).
Proof.
  intros Hhdr. destruct st as [s f c n]. cbn [sock] in Hhdr.
  pose proof (recv_segs_concat 3 (incoming s)) as Hcat.
  rewrite Hhdr in Hcat.
  exists (State (Socket (sent s) (snd (recv_segs 3 (incoming s))) (is_open s))
            f c n).
  split; [repeat split|].
  unfold receive_status, bind. rewrite !recv_eq.
  change (Z.to_nat (FieldSize_value VERSION + FieldSize_value STATUS))
    with 3%nat.
  destruct (recv_segs 3 (incoming s)) as [chunk rest]. cbn [fst snd] in *.
  destruct chunk as [|c0 [|c1 [|c2 [|c3 chunk]]]];
    try (left; reflexivity).
  right. cbn [app] in Hcat. injection Hcat as -> -> -> Hrest.
  split; [reflexivity|exact Hrest].
Qed.

(** C7.  When all that is still to arrive after a Save request is the 3-byte
    header with status SUCCESS, [request_file_save] raises: nothing is
    printed, so no filename is reported as saved.  If the request itself was
    sent, the exception is struct.error (too few bytes), raised where the
    header or NameLen is unpacked. *)
Theorem save_success_then_closed (user_id : bytes) (version : Z)
    (filename : str) (st : state) (v : byte) :
  concat (incoming (sock st)) = [v; xd4; x00] ->
  exists e st',
    request_file_save user_id version filename st = (Raises e, st')
    /\ console st' = console st
    /\ (fst (send_request user_id version SAVE_FILE filename st) = Returns tt ->
        e = StructError).
Proof.
  intros Hhdr. unfold request_file_save. unfold bind at 1.
  rewrite send_request_frame.
  destruct (request_frame _ _ _ _ _) as [package|e].
  - destruct (after_send_same package st) as [(_ & Hc & _) Hin].
    rewrite <- Hin in Hhdr.
    destruct (receive_status_last_header _ _ _ _ Hhdr)
      as (st1 & (_ & Hc1 & _) & [Hrun|[Hrun Hend]]).
    + unfold bind at 1. rewrite Hrun.
      exists StructError, st1. split; [reflexivity|].
      split; [congruence|reflexivity].
    + unfold bind at 1. rewrite Hrun.
      change (struct.from_le [xd4; x00] =? ResponseStatus_value SUCCESS)
        with true. cbn iota.
      destruct (receive_filename_exhausted st1 Hend)
        as (st2 & Hname & (_ & Hc2 & _)).
      unfold bind at 1. rewrite Hname.
      exists StructError, st2. split; [reflexivity|].
      split; [congruence|reflexivity].
  - exists e, st. split; [reflexivity|]. split; [reflexivity|].
    cbn [fst]. discriminate.
Qed.

Lemma save_success_then_closed_witness :
  exists e st',
    request_file_save [x01; x02; x03; x04] 1 (lit "a.txt")
      (scenario [[x01; xd4; x00]] {[ lit "a.txt" := [x68; x69] ]})
    = (Raises e, st')
    /\ console st' = []
    /\ (fst (send_request [x01; x02; x03; x04] 1 SAVE_FILE (lit "a.txt")
               (scenario [[x01; xd4; x00]] {[ lit "a.txt" := [x68; x69] ]}))
        = Returns tt ->
        e = StructError).
Proof.
  apply (save_success_then_closed [x01; x02; x03; x04] 1 (lit "a.txt")
           (scenario [[x01; xd4; x00]] {[ lit "a.txt" := [x68; x69] ]}) x01).
  reflexivity.
Defined.

(** ** Decoding a prefix *)

(** Decoding is compositional: when [a] is a complete encoding, the text of
    [a ++ b] is the text of [a] followed by the text of [b]. *)
Lemma decode_app (a : bytes) :
  forall (s : str) (b : bytes),
    utf8.decode a = Ok s ->
    utf8.decode (a ++ b) = rbind (utf8.decode b) (fun t => Ok (s ++ t)).
Proof.
  induction a as [a IH] using (induction_ltof1 _ (@length byte)).
  unfold ltof in IH. intros s b Hdec.
  assert (Hstep : forall (t : bytes) (c : Z),
            (length t < length a)%nat ->
            rbind (utf8.decode t) (fun r => Ok (c :: r)) = Ok s ->
            rbind (utf8.decode (t ++ b)) (fun r => Ok (c :: r))
            = rbind (utf8.decode b) (fun t => Ok (s ++ t))).
  { intros t c Hlt Ht.
    destruct (utf8.decode t) as [r|e] eqn:E; [|discriminate].
    cbn [rbind] in Ht. injection Ht as <-.
    rewrite (IH t Hlt r b E).
    destruct (utf8.decode b); reflexivity. }
  destruct a as [|b0 t0].
  - cbn [utf8.decode] in Hdec. injection Hdec as <-. cbn [app].
    destruct (utf8.decode b); reflexivity.
  - cbn [app utf8.decode] in *.
    destruct (byte_val b0 <? 128).
    { apply (Hstep t0); [simpl; lia|exact Hdec]. }
    destruct (utf8.between 194 223 b0).
    { destruct t0 as [|b1 t1]; [discriminate|]. cbn [app].
      destruct (utf8.between 128 191 b1); [|discriminate].
      apply (Hstep t1); [simpl; lia|exact Hdec]. }
    destruct (utf8.between 224 239 b0).
    { destruct t0 as [|b1 [|b2 t2]]; try discriminate. cbn [app].
      destruct (_ && _); [|discriminate].
      apply (Hstep t2); [simpl; lia|exact Hdec]. }
    destruct (utf8.between 240 244 b0); [|discriminate].
    destruct t0 as [|b1 [|b2 [|b3 t3]]]; try discriminate. cbn [app].
    destruct (_ && _); [|discriminate].
    apply (Hstep t3); [simpl; lia|exact Hdec].
Qed.

(** The text of a non-empty bytes object is not empty. *)
Lemma decode_nonempty (b : bytes) (t : str) :
  b <> [] -> utf8.decode b = Ok t -> t <> [].
Proof.
  intros Hb Hdec ->. destruct b as [|b0 t0]; [congruence|].
  assert (Hcons : forall (u : bytes) (c : Z),
            rbind (utf8.decode u) (fun r => Ok (c :: r)) <> Ok []).
  { intros u c. destruct (utf8.decode u); discriminate. }
  cbn [utf8.decode] in Hdec.
  destruct (byte_val b0 <? 128); [now apply Hcons in Hdec|].
  destruct (utf8.between 194 223 b0).
  { destruct t0 as [|b1 t1]; [discriminate|].
    destruct (utf8.between 128 191 b1); [|discriminate].
    now apply Hcons in Hdec. }
  destruct (utf8.between 224 239 b0).
  { destruct t0 as [|b1 [|b2 t2]]; try discriminate.
    destruct (_ && _); [|discriminate]. now apply Hcons in Hdec. }
  destruct (utf8.between 240 244 b0); [|discriminate].
  destruct t0 as [|b1 [|b2 [|b3 t3]]]; try discriminate.
  destruct (_ && _); [|discriminate]. now apply Hcons in Hdec.
Qed.

(** ** receive_filename *)

(** C10.  [receive_filename] reads NameLen and then reads once.  When the
    name arrives in two segments [a] and [b], the first of which is a
    complete encoding, it returns the text of [a] alone and leaves [b]
    unread: a strict prefix of the transmitted filename, returned normally. *)
Theorem receive_filename_single_read (st : state) (a b : bytes)
    (rest : list bytes) (s : str) :
  a <> [] ->
  b <> [] ->
  len (a ++ b) < 65536 ->
  utf8.decode a = Ok s ->
  incoming (sock st) = struct.to_le 2 (len (a ++ b)) :: a :: b :: rest ->
  receive_filename st
  = (Returns s,
     set_sock (Socket (sent (sock st)) (b :: rest) (is_open (sock st))) st)
  /\ forall full : str,
       utf8.decode (a ++ b) = Ok full ->
       exists t : str, t <> [] /\ full = s ++ t.
Proof.
  intros Ha Hb Hlen Hdec Hin. split.
  - destruct st as [sk f c n]. cbn [sock] in Hin.
    unfold receive_filename. unfold bind at 1. rewrite recv_eq, Hin.
    change (Z.to_nat (FieldSize_value NAME_LEN)) with 2%nat.
    cbn [struct.to_le recv_segs take drop fst snd].
    unfold bind at 1.
    change (struct.unpack [struct.H]
              [byte_of (len (a ++ b)); byte_of (len (a ++ b) / 256)])
      with (Ok [struct.from_le (struct.to_le 2 (len (a ++ b)))]).
    rewrite from_le_to_le
      by (change (256 ^ Z.of_nat 2) with 65536; unfold len in *; lia).
    cbn [lift ret nth]. unfold bind at 1. rewrite recv_eq.
    cbn [incoming sent is_open].
    destruct a as [|a0 a']; [congruence|].
    cbn [recv_segs fst snd].
    assert (Hge : (length (a0 :: a') <= Z.to_nat (len ((a0 :: a') ++ b)))%nat).
    { unfold len. rewrite length_app. lia. }
    rewrite (take_ge _ _ Hge), (drop_ge _ _ Hge).
    unfold bind. rewrite Hdec. reflexivity.
  - intros full Hfull. rewrite (decode_app a s b Hdec) in Hfull.
    destruct (utf8.decode b) as [t|e] eqn:Et; [|discriminate].
    injection Hfull as <-. exists t. split; [|reflexivity].
    exact (decode_nonempty b t Hb Et).
Qed.

Lemma receive_filename_single_read_witness :
  receive_filename (scenario [[x02; x00]; [x61]; [x62]] ∅)
  = (Returns (lit "a"),
     set_sock (Socket [] [[x62]] true)
       (scenario [[x02; x00]; [x61]; [x62]] ∅))
  /\ forall full : str,
       utf8.decode ([x61] ++ [x62]) = Ok full ->
       exists t : str, t <> [] /\ full = lit "a" ++ t.
Proof.
  apply (receive_filename_single_read
           (scenario [[x02; x00]; [x61]; [x62]] ∅) [x61] [x62] [] (lit "a")).
  - discriminate.
  - discriminate.
  - vm_compute. reflexivity.
  - vm_compute. reflexivity.
  - vm_compute. reflexivity.
Defined.

(** ** Which files an operation writes *)

Lemma same_files_except_refl (path : str) (st : state) :
  same_files_except path st st.
Proof. intros p _. reflexivity. Qed.

Lemma same_files_except_trans (path : str) (a b c : state) :
  same_files_except path a b -> same_files_except path b c ->
  same_files_except path a c.
Proof. intros Hab Hbc p Hp. now rewrite (Hbc p Hp), (Hab p Hp). Qed.

Lemma same_files_step (path : str) (st st' : state) :
  files st' = files st -> same_files_except path st st'.
Proof. intros H p _. now rewrite H. Qed.

Lemma writes_bind (path : str) {A B} (m : M A) (k : A -> M B) :
  preserves (same_files_except path) m ->
  (forall a, preserves (same_files_except path) (k a)) ->
  preserves (same_files_except path) (bind m k).
Proof.
  apply preserves_bind. exact (same_files_except_trans path).
Qed.

Lemma writes_ret (path : str) {A} (a : A) :
  preserves (same_files_except path) (ret a).
Proof. apply preserves_ret, same_files_except_refl. Qed.

Lemma writes_lift (path : str) {A} (r : result A) :
  preserves (same_files_except path) (lift r).
Proof. apply preserves_lift, same_files_except_refl. Qed.

Lemma writes_recv (path : str) (bufsize : Z) :
  preserves (same_files_except path) (recv bufsize).
Proof. intros [s f c n]. rewrite recv_eq. now apply same_files_step. Qed.

Lemma writes_print (path : str) (line : str) :
  preserves (same_files_except path) (print line).
Proof. intros st. now apply same_files_step. Qed.

Lemma writes_send_request (path : str) (user_id : bytes) (version : Z)
    (op_code : OpCode) (filename : str) :
  preserves (same_files_except path)
    (send_request user_id version op_code filename).
Proof.
  intros st. rewrite send_request_frame.
  destruct (request_frame _ _ _ _ _); now apply same_files_step.
Qed.

Lemma writes_receive_status (path : str) :
  preserves (same_files_except path) receive_status.
Proof.
  apply writes_bind; [apply writes_recv|]. intros header.
  apply writes_bind; [apply writes_lift|]. intros fields.
  apply writes_ret.
Qed.

Lemma writes_receive_filename (path : str) :
  preserves (same_files_except path) receive_filename.
Proof.
  apply writes_bind; [apply writes_recv|]. intros buf.
  apply writes_bind; [apply writes_lift|]. intros fields.
  apply writes_bind; [apply writes_recv|]. intros name.
  apply writes_bind; [apply writes_lift|]. intros filename.
  apply writes_ret.
Qed.

Lemma writes_open_wb (path : str) :
  preserves (same_files_except path) (open_wb path).
Proof.
  intros st p Hp. unfold open_wb.
  destruct path; [reflexivity|].
  cbn [snd set_files files]. now rewrite lookup_insert_ne.
Qed.

Lemma writes_file_write (path : str) (chunk : bytes) :
  preserves (same_files_except path) (file_write path chunk).
Proof.
  intros st p Hp. unfold file_write. cbn [snd set_files files].
  now rewrite lookup_alter_ne.
Qed.

Lemma writes_receive_loop (path : str) (fuel : nat) :
  forall file_size : Z,
    preserves (same_files_except path) (receive_loop fuel path file_size).
Proof.
  induction fuel as [|fuel IH]; intros file_size.
  - intros st. apply same_files_except_refl.
  - cbn [receive_loop]. destruct (0 <? file_size); [|apply writes_ret].
    apply writes_bind; [apply writes_recv|]. intros chunk.
    destruct chunk as [|b chunk]; [apply writes_ret|].
    apply writes_bind; [apply writes_file_write|]. intros _. apply IH.
Qed.

(** [receive_file] writes no file but the one it is given. *)
Lemma writes_receive_file (path : str) :
  preserves (same_files_except path) (receive_file path).
Proof.
  apply writes_bind; [apply writes_recv|]. intros buf.
  apply writes_bind; [apply writes_lift|]. intros fields.
  apply writes_bind; [apply writes_open_wb|]. intros _.
  intros st. apply writes_receive_loop.
Qed.

(** [request_file_retrieve] writes no file but "tmp". *)
Lemma writes_request_file_retrieve (user_id : bytes) (version : Z)
    (filename : str) :
  preserves (same_files_except (lit "tmp"))
    (request_file_retrieve user_id version filename).
Proof.
  apply writes_bind; [apply writes_send_request|]. intros _.
  apply writes_bind; [apply writes_receive_status|]. intros status.
  destruct (status =? _).
  - apply writes_bind; [apply writes_receive_filename|]. intros remote.
    apply writes_bind; [apply writes_receive_file|]. intros _.
    apply writes_print.
  - destruct (status =? _); apply writes_print.
Qed.

(** C9, as amended.  [request_file_retrieve] writes no local file other than
    "tmp", whatever filename is requested and whatever filename and status
    the server answers.  When the answer is FILE_RETRIEVED, a filename and a
    size field that decodes to L, the operation returns and "tmp" holds the
    payload: a prefix of the stream after the size field, and all of it when
    the peer delivers at most L bytes.  (The staging name differs from the
    remote filename unless that filename is itself "tmp".) *)
Theorem retrieve_staging_name (user_id : bytes) (version : Z)
    (filename : str) (st : state) :
  (forall path : str,
     path <> lit "tmp" ->
     files (snd (request_file_retrieve user_id version filename st)) !! path
     = files st !! path)
  /\ forall (st1 st2 st3 st4 : state) (remote : str) (buf : bytes) (L : Z),
       send_request user_id version RETRIEVE_FILE filename st
       = (Returns tt, st1) ->
       receive_status st1
       = (Returns (ResponseStatus_value FILE_RETRIEVED), st2) ->
       receive_filename st2 = (Returns remote, st3) ->
       recv (FieldSize_value FILE_SIZE) st3 = (Returns buf, st4) ->
       struct.unpack [struct.I] buf = Ok [L] ->
       exists payload unread : bytes,
         fst (request_file_retrieve user_id version filename st) = Returns tt
         /\ files (snd (request_file_retrieve user_id version filename st))
            !! lit "tmp" = Some payload
         /\ payload ++ unread = concat (incoming (sock st4))
         /\ (len (concat (incoming (sock st4))) <= L ->
             payload = concat (incoming (sock st4))).
Proof.
  split; [apply writes_request_file_retrieve|].
  intros st1 st2 st3 st4 remote buf L Hsend Hstatus Hname Hrecv Hunpack.
  destruct (receive_file_spec (lit "tmp") st3 st4 buf [L])
    as (written & rest & Hrun & Hpre & _ & _ & Hshort);
    [discriminate|assumption..|].
  cbn [nth] in Hshort.
  exists written, (concat rest).
  assert (Hall : exists line,
            request_file_retrieve user_id version filename st
            = print line
                (State (Socket (sent (sock st3)) rest (is_open (sock st3)))
                   (<[lit "tmp" := written]> (files st3)) (console st3)
                   (net st3))).
  { unfold request_file_retrieve.
    unfold bind at 1. rewrite Hsend.
    unfold bind at 1. rewrite Hstatus, Z.eqb_refl.
    unfold bind at 1. rewrite Hname.
    unfold bind at 1. rewrite Hrun. eexists. reflexivity. }
  destruct Hall as [line ->]. cbn [fst snd print files].
  split; [reflexivity|]. split; [apply lookup_insert_eq|].
  split; [exact Hpre|].
  intros Hle. rewrite <- Hpre.
  assert (Hrest : concat rest = []).
  { destruct (Z.lt_ge_cases (len written) L) as [Hlt|Hge];
      [now apply Hshort|].
    rewrite <- Hpre in Hle. unfold len in *. rewrite length_app in Hle.
    apply length_zero_iff_nil. lia. }
  now rewrite Hrest, app_nil_r.
Qed.

Lemma retrieve_staging_name_witness :
  (forall path : str,
     path <> lit "tmp" ->
     files (snd (request_file_retrieve [x01; x02; x03; x04] 1 (lit "a.txt")
                   (scenario [[x01; xd2; x00]; [x05; x00];
                              [x61; x2e; x74; x78; x74];
                              [x02; x00; x00; x00]; [x68; x69]] ∅))) !! path
     = (∅ : gmap str bytes) !! path)
  /\ exists payload unread : bytes,
       fst (request_file_retrieve [x01; x02; x03; x04] 1 (lit "a.txt")
              (scenario [[x01; xd2; x00]; [x05; x00];
                         [x61; x2e; x74; x78; x74];
                         [x02; x00; x00; x00]; [x68; x69]] ∅)) = Returns tt
       /\ files (snd (request_file_retrieve [x01; x02; x03; x04] 1
                        (lit "a.txt")
                        (scenario [[x01; xd2; x00]; [x05; x00];
                                   [x61; x2e; x74; x78; x74];
                                   [x02; x00; x00; x00]; [x68; x69]] ∅)))
          !! lit "tmp" = Some payload
       /\ payload ++ unread = [x68; x69]
       /\ (len [x68; x69] <= 2 -> payload = [x68; x69]).
Proof.
  destruct (retrieve_staging_name [x01; x02; x03; x04] 1 (lit "a.txt")
              (scenario [[x01; xd2; x00]; [x05; x00];
                         [x61; x2e; x74; x78; x74];
                         [x02; x00; x00; x00]; [x68; x69]] ∅))
    as [Hframe Hpayload].
  split; [exact Hframe|].
  apply (Hpayload
           (State (Socket [x04; x03; x02; x01; x01; xc8; x05; x00;
                           x61; x2e; x74; x78; x74]
                     [[x01; xd2; x00]; [x05; x00]; [x61; x2e; x74; x78; x74];
                      [x02; x00; x00; x00]; [x68; x69]] true)
              ∅ [] (fun _ _ => None))
           (State (Socket [x04; x03; x02; x01; x01; xc8; x05; x00;
                           x61; x2e; x74; x78; x74]
                     [[x05; x00]; [x61; x2e; x74; x78; x74];
                      [x02; x00; x00; x00]; [x68; x69]] true)
              ∅ [] (fun _ _ => None))
           (State (Socket [x04; x03; x02; x01; x01; xc8; x05; x00;
                           x61; x2e; x74; x78; x74]
                     [[x02; x00; x00; x00]; [x68; x69]] true)
              ∅ [] (fun _ _ => None))
           (State (Socket [x04; x03; x02; x01; x01; xc8; x05; x00;
                           x61; x2e; x74; x78; x74]
                     [[x68; x69]] true)
              ∅ [] (fun _ _ => None))
           (lit "a.txt") [x02; x00; x00; x00] 2).
  - vm_compute. reflexivity.
  - vm_compute. reflexivity.
  - vm_compute. reflexivity.
  - vm_compute. reflexivity.
  - vm_compute. reflexivity.
Defined.

(** C9, as stated, fails: when the remote filename is "tmp", the retrieved
    content is written to the local file of that very name. *)
Lemma retrieve_staging_name_counterexample :
  exists remote : str,
    remote = lit "tmp"
    /\ request_file_retrieve [x01; x02; x03; x04] 1 remote
         (scenario [[x01; xd2; x00]; [x03; x00]; [x74; x6d; x70];
                    [x02; x00; x00; x00]; [x68; x69]] ∅)
       = (Returns tt,
          State (Socket [x04; x03; x02; x01; x01; xc8; x03; x00;
                         x74; x6d; x70] [] true)
            {[ remote := [x68; x69] ]}
            [Printed (lit "Retrieved " ++ remote ++ lit " from server")]
            (fun _ _ => None)).
Proof.
  exists (lit "tmp"). split; [reflexivity|]. vm_compute. reflexivity.
Qed.

(** * Further properties *)

(** ** The struct codec: round trip *)

Lemma pack_length (fmt : list struct.code) :
  forall (vals : list Z) (p : bytes),
    struct.pack fmt vals = Ok p -> length p = struct.calcsize fmt.
Proof.
  induction fmt as [|c fmt IH]; intros [|v vals] p Hp; try discriminate.
  - now apply pack_nil_inv in Hp as ->.
  - apply pack_cons_inv in Hp as (r & Hr & _ & ->).
    rewrite length_app, to_le_length, (IH _ _ Hr). reflexivity.
Qed.

Lemma field_range_pow (c : struct.code) :
  2 ^ (8 * Z.of_nat (struct.width c)) = 256 ^ Z.of_nat (struct.width c).
Proof. destruct c; reflexivity. Qed.

(** What [struct.pack] produces, [struct.unpack] reads back. *)
Lemma unpack_of_pack (fmt : list struct.code) :
  forall (vals : list Z) (p : bytes),
    struct.pack fmt vals = Ok p -> struct.unpack fmt p = Ok vals.
Proof.
  intros vals p Hp. unfold struct.unpack.
  rewrite (pack_length fmt vals p Hp), Nat.eqb_refl. f_equal.
  revert vals p Hp.
  induction fmt as [|c fmt IH]; intros [|v vals] p Hp; try discriminate.
  - reflexivity.
  - apply pack_cons_inv in Hp as (r & Hr & Hv & ->).
    cbn [struct.unpack_fields].
    rewrite take_app_length', drop_app_length'
      by (symmetry; apply to_le_length).
    rewrite from_le_to_le by (rewrite <- field_range_pow; exact Hv).
    now rewrite (IH _ _ Hr).
Qed.

(** ** The request framer: failure, bounds, header *)

(** X2.  [send_request] is all or nothing: either it returns, having handed
    exactly one frame to the socket and changed nothing else, or it raises
    and leaves the whole state, the bytes sent included, as it was.  This
    holds for every opcode and every cause of failure. *)
Theorem send_request_all_or_nothing (user_id : bytes) (version : Z)
    (op_code : OpCode) (filename : str) (st : state) :
  (exists frame,
     request_frame user_id version op_code filename (files st) = Ok frame
     /\ send_request user_id version op_code filename st
        = (Returns tt, after_send frame st)
     /\ (6 <= length frame)%nat)
  \/ (exists e,
        send_request user_id version op_code filename st = (Raises e, st)).
Proof.
  rewrite send_request_frame.
  destruct (request_frame _ _ _ _ _) as [frame|e] eqn:E; [left|right; eauto].
  exists frame. split; [reflexivity|]. split; [reflexivity|].
  apply request_frame_inv in E as (name_part & payload & -> & _).
  rewrite !length_app, header_length. lia.
Qed.

Lemma request_frame_header_bounds (user_id : bytes) (version : Z)
    (op_code : OpCode) (filename : str) (fs : gmap str bytes) (frame : bytes) :
  request_frame user_id version op_code filename fs = Ok frame ->
  0 <= int_from_bytes_big user_id < 2 ^ 32
  /\ 0 <= version < 256
  /\ (filename <> [] -> len filename < 65536).
Proof.
  unfold request_frame. intros E.
  destruct filename as [|c s].
  - destruct (struct.pack _ _) as [q|] eqn:Ep; [|discriminate].
    apply pack_cons_inv in Ep as (r1 & Ep & Hu & _).
    apply pack_cons_inv in Ep as (r2 & Ep & Hv & _).
    cbn [struct.width] in *.
    change (2 ^ (8 * Z.of_nat 1)) with 256 in Hv.
    change (8 * Z.of_nat 4) with 32 in Hu. repeat split; try lia;
      congruence.
  - destruct (struct.pack _ _) as [q|] eqn:Ep; [|discriminate].
    apply pack_cons_inv in Ep as (r1 & Ep & Hu & _).
    apply pack_cons_inv in Ep as (r2 & Ep & Hv & _).
    apply pack_cons_inv in Ep as (r3 & Ep & _ & _).
    apply pack_cons_inv in Ep as (r4 & Ep & Hn & _).
    cbn [struct.width] in *.
    change (2 ^ (8 * Z.of_nat 1)) with 256 in Hv.
    change (2 ^ (8 * Z.of_nat 2)) with 65536 in Hn.
    change (8 * Z.of_nat 4) with 32 in Hu. repeat split; lia.
Qed.

(** X3.  A request that is sent respects the field widths: the user id read
    big-endian is below 2^32, the version is a byte, a non-empty filename has
    fewer than 65536 characters, and the content of a saved file has fewer
    than 2^32 bytes.  Outside these bounds [send_request] raises. *)
Theorem send_request_bounds (user_id : bytes) (version : Z)
    (op_code : OpCode) (filename : str) (st st' : state) :
  send_request user_id version op_code filename st = (Returns tt, st') ->
  0 <= int_from_bytes_big user_id < 2 ^ 32
  /\ 0 <= version < 256
  /\ (filename <> [] -> len filename < 65536)
  /\ (op_code = SAVE_FILE ->
      exists content, files st !! filename = Some content
        /\ len content < 2 ^ 32).
Proof.
  rewrite send_request_frame.
  destruct (request_frame _ _ _ _ _) as [frame|e] eqn:E; [|discriminate].
  intros _.
  destruct (request_frame_header_bounds _ _ _ _ _ _ E) as (Hu & Hv & Hn).
  repeat split; try tauto; try lia.
  unfold request_frame in E.
  intros ->. cbn [OpCode_eqb] in E.
  destruct (match filename with [] => _ | _ => _ end) as [package|];
    [|discriminate].
  cbn [rbind] in E. destruct filename as [|c s]; [discriminate|].
  destruct (files st !! _) as [content|]; [|discriminate].
  exists content. split; [reflexivity|].
  destruct (struct.pack [struct.I] [len content]) as [size|] eqn:Ep;
    [|discriminate].
  apply pack_cons_inv in Ep as (r1 & _ & Hs & _).
  cbn [struct.width] in Hs. change (8 * Z.of_nat 4) with 32 in Hs. lia.
Qed.

Lemma send_request_bounds_witness :
  0 <= int_from_bytes_big [x01; x02; x03; x04] < 2 ^ 32
  /\ 0 <= 1 < 256
  /\ (lit "a.txt" <> [] -> len (lit "a.txt") < 65536)
  /\ (SAVE_FILE = SAVE_FILE ->
      exists content,
        files (scenario [] {[ lit "a.txt" := [x68; x69] ]}) !! lit "a.txt"
        = Some content
        /\ len content < 2 ^ 32).
Proof.
  apply (send_request_bounds [x01; x02; x03; x04] 1 SAVE_FILE (lit "a.txt")
           (scenario [] {[ lit "a.txt" := [x68; x69] ]})
           (after_send [x04; x03; x02; x01; x01; x64; x05; x00;
                        x61; x2e; x74; x78; x74; x02; x00; x00; x00;
                        x68; x69]
              (scenario [] {[ lit "a.txt" := [x68; x69] ]}))).
  vm_compute. reflexivity.
Defined.

(** X4.  The header of every frame that is sent decodes, with the format
    "<IBB", to the user id read as a big-endian integer, the version and the
    value of the opcode. *)
Theorem request_header_unpacks (user_id : bytes) (version : Z)
    (op_code : OpCode) (filename : str) (st st' : state) :
  send_request user_id version op_code filename st = (Returns tt, st') ->
  exists frame,
    st' = after_send frame st
    /\ struct.unpack [struct.I; struct.B; struct.B] (take 6 frame)
       = Ok [int_from_bytes_big user_id; version; OpCode_value op_code].
Proof.
  rewrite send_request_frame.
  destruct (request_frame _ _ _ _ _) as [frame|e] eqn:E; [|discriminate].
  intros [= <-]. exists frame. split; [reflexivity|].
  destruct (request_frame_header_bounds _ _ _ _ _ _ E) as (Hu & Hv & _).
  apply request_frame_inv in E as (name_part & payload & -> & _).
  rewrite <- !app_assoc.
  rewrite (take_app_length' (header user_id version op_code))
    by (symmetry; apply header_length).
  apply unpack_of_pack. unfold header.
  pose proof (OpCode_value_byte op_code) as Hop.
  rewrite (pack_cons_ok struct.I _ _ _
             [byte_of version; byte_of (OpCode_value op_code)]);
    [reflexivity| |].
  - cbn [struct.width]. change (8 * Z.of_nat 4) with 32. lia.
  - rewrite (pack_cons_ok struct.B _ _ _ [byte_of (OpCode_value op_code)]);
      [reflexivity| |].
    + cbn [struct.width]. change (2 ^ (8 * Z.of_nat 1)) with 256. lia.
    + rewrite (pack_cons_ok struct.B _ _ _ []); [reflexivity| |reflexivity].
      cbn [struct.width]. change (2 ^ (8 * Z.of_nat 1)) with 256. lia.
Qed.

Lemma request_header_unpacks_witness :
  exists frame,
    after_send [x04; x03; x02; x01; x01; xc9; x01; x00; x61] (scenario [] ∅)
    = after_send frame (scenario [] ∅)
    /\ struct.unpack [struct.I; struct.B; struct.B] (take 6 frame)
       = Ok [int_from_bytes_big [x01; x02; x03; x04]; 1;
             OpCode_value DELETE_FILE].
Proof.
  apply (request_header_unpacks [x01; x02; x03; x04] 1 DELETE_FILE (lit "a")
           (scenario [] ∅)).
  vm_compute. reflexivity.
Defined.

(** ** UTF-8: lengths and round trip *)

Lemma encode_char_length (c : Z) (b : bytes) :
  utf8.encode_char c = Ok b ->
  (1 <= length b)%nat /\ (length b = 1%nat <-> 0 <= c < 128).
Proof.
  unfold utf8.encode_char.
  destruct (Z.ltb_spec c 0); [discriminate|].
  destruct (Z.ltb_spec c 128).
  { intros [= <-]. simpl. split; [lia|]. split; lia. }
  destruct (Z.ltb_spec c 2048).
  { intros [= <-]. simpl. split; [lia|]. split; [discriminate|lia]. }
  destruct (Z.ltb_spec c 65536).
  { destruct (_ && _); [discriminate|].
    intros [= <-]. simpl. split; [lia|]. split; [discriminate|lia]. }
  destruct (Z.ltb_spec c 1114112); [|discriminate].
  intros [= <-]. simpl. split; [lia|]. split; [discriminate|lia].
Qed.

(** An encoding has at least as many bytes as the string has characters,
    and exactly as many only for ASCII strings. *)
Lemma encode_length (s : str) :
  forall name : bytes,
    utf8.encode s = Ok name ->
    (length s <= length name)%nat
    /\ (length name = length s <-> ascii_str s).
Proof.
  induction s as [|c t IH]; intros name Hname.
  - injection Hname as <-. split; [simpl; lia|].
    split; [constructor|reflexivity].
  - cbn [utf8.encode] in Hname.
    destruct (utf8.encode_char c) as [b|] eqn:Ec; [|discriminate].
    destruct (utf8.encode t) as [r|] eqn:Et; [|discriminate].
    cbn [rbind] in Hname. injection Hname as <-.
    destruct (encode_char_length c b Ec) as [Hb1 Hb].
    destruct (IH r eq_refl) as [Hr1 Hr].
    rewrite length_app. cbn [length]. split; [lia|]. split.
    + intros Hlen. constructor; [apply Hb; lia|apply Hr; lia].
    + intros Hascii. inversion Hascii as [|? ? Hc Ht]; subst.
      apply Hb in Hc. apply Hr in Ht. lia.
Qed.

(** X5.  In a frame that carries a name, the NameLen field is the number of
    characters of the filename, while the name that follows is its UTF-8
    encoding: NameLen never exceeds the number of name bytes, and equals it
    exactly when the filename is ASCII. *)
Theorem name_len_counts_characters (user_id : bytes) (version : Z)
    (op_code : OpCode) (filename : str) (st st' : state) :
  filename <> [] ->
  send_request user_id version op_code filename st = (Returns tt, st') ->
  exists name payload,
    utf8.encode filename = Ok name
    /\ st' = after_send
               ((header user_id version op_code
                 ++ struct.to_le 2 (len filename) ++ name) ++ payload) st
    /\ len filename <= len name
    /\ (len filename = len name <-> ascii_str filename).
Proof.
  intros Hne. rewrite send_request_frame.
  destruct (request_frame _ _ _ _ _) as [frame|e] eqn:E; [|discriminate].
  intros [= <-].
  apply request_frame_inv in E as (name_part & payload & -> & Hname & _).
  destruct filename as [|c s]; [congruence|].
  destruct Hname as (name & Hname & ->).
  exists name, payload. split; [exact Hname|]. split; [reflexivity|].
  destruct (encode_length _ _ Hname) as [Hle Hiff].
  unfold len. split; [lia|]. rewrite <- Hiff. lia.
Qed.

Lemma name_len_counts_characters_witness :
  exists name payload,
    utf8.encode [233] = Ok name
    /\ after_send [x04; x03; x02; x01; x01; xc8; x01; x00; xc3; xa9]
         (scenario [] ∅)
       = after_send
           ((header [x01; x02; x03; x04] 1 RETRIEVE_FILE
             ++ struct.to_le 2 (len [233]) ++ name) ++ payload)
           (scenario [] ∅)
    /\ len [233] <= len name
    /\ (len [233] = len name <-> ascii_str [233]).
Proof.
  apply (name_len_counts_characters [x01; x02; x03; x04] 1 RETRIEVE_FILE
           [233] (scenario [] ∅)).
  - discriminate.
  - vm_compute. reflexivity.
Defined.

(** Facts about a bounded range, checked on every value of the range. *)
Lemma forall_below (P : Z -> bool) (n : nat) :
  forallb P (map Z.of_nat (seq 0 n)) = true ->
  forall z, 0 <= z < Z.of_nat n -> P z = true.
Proof.
  intros Hall z Hz. rewrite forallb_forall in Hall. apply Hall.
  apply in_map_iff. exists (Z.to_nat z). split; [lia|].
  apply in_seq. lia.
Qed.

Lemma lor_lead (base bound z : Z) :
  forallb (fun z => Z.lor base z =? base + z)
    (map Z.of_nat (seq 0 (Z.to_nat bound))) = true ->
  0 <= z < bound -> Z.lor base z = base + z.
Proof.
  intros Hall Hz. apply Z.eqb_eq.
  apply (forall_below (fun z => Z.lor base z =? base + z) (Z.to_nat bound));
    [exact Hall|lia].
Qed.

Lemma land_low (base mask bound z : Z) :
  forallb (fun z => Z.land (base + z) mask =? z)
    (map Z.of_nat (seq 0 (Z.to_nat bound))) = true ->
  0 <= z < bound -> Z.land (base + z) mask = z.
Proof.
  intros Hall Hz. apply Z.eqb_eq.
  apply (forall_below (fun z => Z.land (base + z) mask =? z)
           (Z.to_nat bound)); [exact Hall|lia].
Qed.

Lemma shiftr_6 (c : Z) : Z.shiftr c 6 = c / 64.
Proof. now rewrite Z.shiftr_div_pow2 by lia. Qed.

Lemma shiftr_12 (c : Z) : Z.shiftr c 12 = c / 64 / 64.
Proof.
  rewrite Z.shiftr_div_pow2, Z.div_div by lia. reflexivity.
Qed.

Lemma shiftr_18 (c : Z) : Z.shiftr c 18 = c / 64 / 64 / 64.
Proof.
  rewrite Z.shiftr_div_pow2, !Z.div_div by lia. reflexivity.
Qed.

Lemma land_63 (c : Z) : Z.land c 63 = c mod 64.
Proof. change 63 with (Z.ones 6). now rewrite Z.land_ones by lia. Qed.

(** The value of a continuation byte. *)
Lemma cont_val (x : Z) :
  byte_val (byte_of (Z.lor 128 (Z.land x 63))) = 128 + x mod 64.
Proof.
  rewrite land_63.
  pose proof (Z.mod_pos_bound x 64 ltac:(lia)) as Hm.
  rewrite (lor_lead 128 64) by (vm_compute; reflexivity || exact Hm).
  apply byte_val_of. lia.
Qed.

Lemma low6_cont (b : byte) (m : Z) :
  0 <= m < 64 -> byte_val b = 128 + m -> utf8.low6 b = m.
Proof.
  intros Hm Hb. unfold utf8.low6. rewrite Hb.
  apply (land_low 128 63 64); [vm_compute; reflexivity|exact Hm].
Qed.

Ltac resolve_tests :=
  repeat match goal with
    | |- context [?a =? ?b] => destruct (Z.eqb_spec a b); try lia
    | |- context [?a <? ?b] => destruct (Z.ltb_spec a b); try lia
    | |- context [?a <=? ?b] => destruct (Z.leb_spec a b); try lia
    end.

(** Decoding what one character encodes to gives the character back, and
    goes on with the bytes that follow. *)
Lemma decode_encode_char (c : Z) (bs rest : bytes) :
  utf8.encode_char c = Ok bs ->
  utf8.decode (bs ++ rest)
  = rbind (utf8.decode rest) (fun r => Ok (c :: r)).
Proof.
  unfold utf8.encode_char.
  destruct (Z.ltb_spec c 0) as [|Hc0]; [discriminate|].
  pose proof (Z.div_mod c 64 ltac:(lia)) as Hc.
  pose proof (Z.mod_pos_bound c 64 ltac:(lia)) as Hl.
  pose proof (Z.div_mod (c / 64) 64 ltac:(lia)) as Hq.
  pose proof (Z.mod_pos_bound (c / 64) 64 ltac:(lia)) as Hm.
  pose proof (Z.div_mod (c / 64 / 64) 64 ltac:(lia)) as Hp.
  pose proof (Z.mod_pos_bound (c / 64 / 64) 64 ltac:(lia)) as Hn.
  set (l := c mod 64) in *. set (q := c / 64) in *.
  set (m := q mod 64) in *. set (p := q / 64) in *.
  set (n := p mod 64) in *. set (h := p / 64) in *.
  destruct (Z.ltb_spec c 128) as [Hc1|Hc1].
  { intros [= <-]. cbn [app utf8.decode].
    rewrite byte_val_of by lia. resolve_tests; reflexivity. }
  destruct (Z.ltb_spec c 2048) as [Hc2|Hc2].
  { intros [= <-]. unfold utf8.cont. rewrite Z.shiftr_0_r, shiftr_6.
    fold q.
    assert (Hb0 : byte_val (byte_of (Z.lor 192 q)) = 192 + q).
    { rewrite (lor_lead 192 32) by (first [lia | vm_compute; reflexivity]).
      apply byte_val_of. lia. }
    pose proof (cont_val c) as Hb1. fold l in Hb1.
    set (b0 := byte_of (Z.lor 192 q)) in *.
    set (b1 := byte_of (Z.lor 128 (Z.land c 63))) in *.
    clearbody b0 b1. cbn [app utf8.decode].
    rewrite (low6_cont b1 l Hl Hb1). unfold utf8.between.
    rewrite Hb0, Hb1.
    rewrite (land_low 192 31 32) by (first [lia | vm_compute; reflexivity]).
    resolve_tests; cbn [andb];
      replace (q * 64 + l) with c by lia; reflexivity. }
  destruct (Z.ltb_spec c 65536) as [Hc3|Hc3].
  { destruct (Z.leb_spec 55296 c) as [Hs1|Hs1];
      [destruct (Z.leb_spec c 57343) as [Hs2|Hs2]; [discriminate|]|];
      cbn [andb]; intros [= <-]; unfold utf8.cont;
      rewrite Z.shiftr_0_r, shiftr_6, shiftr_12; fold q; fold p.
    all: assert (Hb0 : byte_val (byte_of (Z.lor 224 p)) = 224 + p)
      by (rewrite (lor_lead 224 16) by (first [lia | vm_compute; reflexivity]);
          apply byte_val_of; lia).
    all: pose proof (cont_val q) as Hb1; fold m in Hb1.
    all: pose proof (cont_val c) as Hb2; fold l in Hb2.
    all: set (b0 := byte_of (Z.lor 224 p)) in *.
    all: set (b1 := byte_of (Z.lor 128 (Z.land q 63))) in *.
    all: set (b2 := byte_of (Z.lor 128 (Z.land c 63))) in *.
    all: clearbody b0 b1 b2; cbn [app utf8.decode].
    all: rewrite (low6_cont b1 m Hm Hb1), (low6_cont b2 l Hl Hb2).
    all: unfold utf8.between; rewrite Hb0, Hb1, Hb2.
    all: rewrite (land_low 224 15 16) by (first [lia | vm_compute; reflexivity]).
    all: resolve_tests; cbn [andb].
    all: replace ((p * 64 + m) * 64 + l) with c by lia; reflexivity. }
  destruct (Z.ltb_spec c 1114112) as [Hc4|Hc4]; [|discriminate].
  intros [= <-]. unfold utf8.cont.
  rewrite Z.shiftr_0_r, shiftr_6, shiftr_12, shiftr_18.
  fold q. fold p. fold h.
  assert (Hb0 : byte_val (byte_of (Z.lor 240 h)) = 240 + h).
  { rewrite (lor_lead 240 8) by (first [lia | vm_compute; reflexivity]).
    apply byte_val_of. lia. }
  pose proof (cont_val p) as Hb1. fold n in Hb1.
  pose proof (cont_val q) as Hb2. fold m in Hb2.
  pose proof (cont_val c) as Hb3. fold l in Hb3.
  set (b0 := byte_of (Z.lor 240 h)) in *.
  set (b1 := byte_of (Z.lor 128 (Z.land p 63))) in *.
  set (b2 := byte_of (Z.lor 128 (Z.land q 63))) in *.
  set (b3 := byte_of (Z.lor 128 (Z.land c 63))) in *.
  clearbody b0 b1 b2 b3. cbn [app utf8.decode].
  rewrite (low6_cont b1 n Hn Hb1), (low6_cont b2 m Hm Hb2),
    (low6_cont b3 l Hl Hb3).
  unfold utf8.between. rewrite Hb0, Hb1, Hb2, Hb3.
  rewrite (land_low 240 7 8) by (first [lia | vm_compute; reflexivity]).
  resolve_tests; cbn [andb];
    replace (((h * 64 + n) * 64 + m) * 64 + l) with c by lia; reflexivity.
Qed.

(** Decoding inverts encoding. *)
Lemma decode_of_encode (s : str) :
  forall name : bytes, utf8.encode s = Ok name -> utf8.decode name = Ok s.
Proof.
  induction s as [|c t IH]; intros name Hname.
  - now injection Hname as <-.
  - cbn [utf8.encode] in Hname.
    destruct (utf8.encode_char c) as [b|] eqn:Ec; [|discriminate].
    destruct (utf8.encode t) as [r|] eqn:Et; [|discriminate].
    cbn [rbind] in Hname. injection Hname as <-.
    rewrite (decode_encode_char c b r Ec), (IH r eq_refl). reflexivity.
Qed.

(** ** Reading the front of a segment *)

Lemma recv_front (bufsize : Z) (x y : bytes) (rest : list bytes) (st : state) :
  x <> [] ->
  Z.to_nat bufsize = length x ->
  incoming (sock st) = (x ++ y) :: rest ->
  recv bufsize st = (Returns x, with_incoming (requeue y rest) st).
Proof.
  intros Hx Hn Hin. destruct st as [s f c n]. cbn [sock] in Hin.
  rewrite recv_eq, Hin, Hn. unfold with_incoming, set_sock.
  cbn [sock files console net].
  destruct x as [|x0 x']; [congruence|]. cbn [app recv_segs fst snd].
  change (x0 :: x' ++ y) with ((x0 :: x') ++ y).
  rewrite take_app_length, drop_app_length. now destruct y.
Qed.

(** A read of no bytes returns no bytes and consumes none. *)
Lemma recv_nothing (st : state) :
  exists segs,
    recv 0 st = (Returns [], with_incoming segs st)
    /\ concat segs = concat (incoming (sock st)).
Proof.
  destruct st as [s f c n]. rewrite recv_eq.
  pose proof (recv_segs_length (Z.to_nat 0) (incoming s)) as Hlen.
  pose proof (recv_segs_concat (Z.to_nat 0) (incoming s)) as Hcat.
  destruct (recv_segs (Z.to_nat 0) (incoming s)) as [chunk segs].
  cbn [fst snd] in *. exists segs.
  destruct chunk; [|simpl in Hlen; lia]. split; [reflexivity|exact Hcat].
Qed.

Lemma with_incoming_twice (a b : list bytes) (st : state) :
  with_incoming a (with_incoming b st) = with_incoming a st.
Proof. reflexivity. Qed.

Lemma requeue_concat (more : bytes) (rest : list bytes) :
  concat (requeue more rest) = more ++ concat rest.
Proof. now destruct more. Qed.

(** ** receive_status *)

(** The status of a header that arrives in one read. *)
Lemma receive_status_front (b : byte) (status : Z)
    (more : bytes) (rest : list bytes) (st : state) :
  0 <= status < 65536 ->
  incoming (sock st) = (b :: struct.to_le 2 status ++ more) :: rest ->
  receive_status st = (Returns status, with_incoming (requeue more rest) st).
Proof.
  intros Hstatus Hin. unfold receive_status. unfold bind at 1.
  rewrite (recv_front _ (b :: struct.to_le 2 status) more rest st);
    [|discriminate|reflexivity|exact Hin].
  unfold bind. cbn [struct.to_le].
  change (struct.unpack [struct.B; struct.H]
            [b; byte_of status; byte_of (status / 256)])
    with (Ok [struct.from_le [b]; struct.from_le (struct.to_le 2 status)]).
  rewrite from_le_to_le by (change (256 ^ Z.of_nat 2) with 65536; lia).
  reflexivity.
Qed.

(** X8.  [receive_status] reads once: when the first read returns fewer than
    three bytes, because the header is split over segments or the peer has
    closed, it raises struct.error, even if the rest of the header is on its
    way. *)
Theorem receive_status_short_read (st st1 : state) (buf : bytes) :
  recv 3 st = (Returns buf, st1) ->
  (length buf < 3)%nat ->
  receive_status st = (Raises StructError, st1).
Proof.
  intros Hrecv Hshort. unfold receive_status, bind.
  change (FieldSize_value VERSION + FieldSize_value STATUS) with 3.
  rewrite Hrecv. unfold struct.unpack.
  destruct (Nat.eqb_spec (length buf)
              (struct.calcsize [struct.B; struct.H])) as [Heq|_];
    [|reflexivity].
  simpl in Heq. lia.
Qed.

Lemma receive_status_short_read_witness :
  receive_status (scenario [[x01; xd4]; [x00]] ∅)
  = (Raises StructError, with_incoming [[x00]] (scenario [[x01; xd4]; [x00]] ∅)).
Proof.
  apply (receive_status_short_read (scenario [[x01; xd4]; [x00]] ∅)
           (with_incoming [[x00]] (scenario [[x01; xd4]; [x00]] ∅))
           [x01; xd4]).
  - vm_compute. reflexivity.
  - simpl. lia.
Defined.

(** ** receive_filename and receive_file on complete input *)

Lemma to_le_2_cons (n : Z) : struct.to_le 2 n <> [].
Proof. discriminate. Qed.

Lemma unpack_to_le (c : struct.code) (n : Z) :
  0 <= n < 2 ^ (8 * Z.of_nat (struct.width c)) ->
  struct.unpack [c] (struct.to_le (struct.width c) n) = Ok [n].
Proof.
  intros Hn. apply unpack_of_pack.
  rewrite (pack_cons_ok c [] n [] [] Hn eq_refl). now rewrite app_nil_r.
Qed.

(** X9.  When NameLen and the whole name arrive in the segment at the front
    of the stream, [receive_filename] returns the filename whose encoding was
    sent and consumes exactly NameLen plus the name, leaving what follows. *)
Theorem receive_filename_complete (text : str) (name more : bytes)
    (rest : list bytes) (st : state) :
  utf8.encode text = Ok name ->
  len name < 65536 ->
  incoming (sock st) = (struct.to_le 2 (len name) ++ name ++ more) :: rest ->
  exists segs,
    receive_filename st = (Returns text, with_incoming segs st)
    /\ concat segs = more ++ concat rest.
Proof.
  intros Henc Hlen Hin. apply decode_of_encode in Henc as Hdec.
  assert (Hrange : 0 <= len name < 2 ^ (8 * Z.of_nat (struct.width struct.H))).
  { change (2 ^ (8 * Z.of_nat (struct.width struct.H))) with 65536.
    unfold len in *. lia. }
  unfold receive_filename. unfold bind at 1.
  rewrite (recv_front _ (struct.to_le 2 (len name)) (name ++ more) rest st);
    [|apply to_le_2_cons|reflexivity|exact Hin].
  unfold bind at 1.
  pose proof (unpack_to_le struct.H (len name) Hrange) as Hunpack.
  cbn [struct.width] in Hunpack. rewrite Hunpack. cbn [lift ret nth].
  clear Hunpack Hrange.
  destruct name as [|b name'].
  - destruct (recv_nothing (with_incoming (requeue ([] ++ more) rest) st))
      as (segs & Hrecv & Hcat).
    change (len []) with 0. unfold bind. rewrite Hrecv, Hdec.
    exists segs. split; [reflexivity|].
    rewrite Hcat. apply requeue_concat.
  - unfold bind at 1.
    rewrite (recv_front _ (b :: name') more rest
               (with_incoming (requeue ((b :: name') ++ more) rest) st));
      [|discriminate|unfold len; lia|reflexivity].
    unfold bind. rewrite Hdec. exists (requeue more rest).
    split; [reflexivity|apply requeue_concat].
Qed.

Lemma receive_filename_complete_witness :
  exists segs,
    receive_filename (scenario [[x02; x00; xc3; xa9; x07]] ∅)
    = (Returns [233], with_incoming segs (scenario [[x02; x00; xc3; xa9; x07]] ∅))
    /\ concat segs = [x07] ++ concat [].
Proof.
  apply (receive_filename_complete [233] [xc3; xa9] [x07] []
           (scenario [[x02; x00; xc3; xa9; x07]] ∅)).
  - vm_compute. reflexivity.
  - vm_compute. reflexivity.
  - vm_compute. reflexivity.
Defined.

(** A payload of exactly the declared size. *)
Lemma receive_file_front (filename : str) (payload first : bytes)
    (segs : list bytes) (st : state) :
  filename <> [] ->
  len payload < 2 ^ 32 ->
  first ++ concat segs = payload ->
  incoming (sock st) = (struct.to_le 4 (len payload) ++ first) :: segs ->
  exists rest,
    receive_file filename st
    = (Returns tt,
       set_files (<[filename := payload]> (files st)) (with_incoming rest st))
    /\ concat rest = [].
Proof.
  intros Hname Hlen Hpay Hin.
  assert (Hrange : 0 <= len payload
                   < 2 ^ (8 * Z.of_nat (struct.width struct.I))).
  { change (8 * Z.of_nat (struct.width struct.I)) with 32.
    unfold len in *. lia. }
  destruct (receive_file_spec filename st
              (with_incoming (requeue first segs) st)
              (struct.to_le 4 (len payload)) [len payload])
    as (written & rest & Hrun & Hpre & _ & _ & Hshort).
  - exact Hname.
  - apply recv_front; [discriminate|reflexivity|exact Hin].
  - exact (unpack_to_le struct.I (len payload) Hrange).
  - cbn [nth] in Hshort.
    unfold with_incoming, set_sock in Hpre. cbn [sock incoming] in Hpre.
    rewrite requeue_concat, Hpay in Hpre.
    assert (Hrest : concat rest = []).
    { destruct (Z.lt_ge_cases (len written) (len payload)) as [Hlt|Hge];
        [now apply Hshort|].
      apply (f_equal (@length byte)) in Hpre. rewrite length_app in Hpre.
      apply length_zero_iff_nil. unfold len in *. lia. }
    rewrite Hrest, app_nil_r in Hpre. subst written.
    exists rest. split; [exact Hrun|exact Hrest].
Qed.

(** X11.  When the first read does not return exactly the four bytes of the
    size field, because the field is split across segments or the peer has
    closed, [receive_file] raises struct.error before the file is opened:
    whatever the filename, no file is created, truncated or written. *)
Theorem receive_file_raises_early (filename : str) (st st1 : state)
    (buf : bytes) :
  recv 4 st = (Returns buf, st1) ->
  length buf <> 4%nat ->
  receive_file filename st = (Raises StructError, st1)
  /\ files st1 = files st.
Proof.
  intros Hrecv Hshort. split.
  - unfold receive_file. unfold bind at 1.
    change (FieldSize_value FILE_SIZE) with 4. rewrite Hrecv.
    unfold bind at 1. unfold struct.unpack.
    destruct (Nat.eqb_spec (length buf) (struct.calcsize [struct.I]))
      as [Heq|_]; [|reflexivity].
    exfalso. apply Hshort. exact Heq.
  - destruct st as [s f c n]. rewrite recv_eq in Hrecv.
    now injection Hrecv as _ <-.
Qed.

Lemma receive_file_raises_early_witness :
  receive_file (lit "out")
    (scenario [[x05; x00]; [x00; x00]] {[ lit "out" := [x7a] ]})
  = (Raises StructError,
     with_incoming [[x00; x00]]
       (scenario [[x05; x00]; [x00; x00]] {[ lit "out" := [x7a] ]}))
  /\ files (with_incoming [[x00; x00]]
              (scenario [[x05; x00]; [x00; x00]] {[ lit "out" := [x7a] ]}))
     = files (scenario [[x05; x00]; [x00; x00]] {[ lit "out" := [x7a] ]}).
Proof.
  apply (receive_file_raises_early (lit "out")
           (scenario [[x05; x00]; [x00; x00]] {[ lit "out" := [x7a] ]})
           (with_incoming [[x00; x00]]
              (scenario [[x05; x00]; [x00; x00]] {[ lit "out" := [x7a] ]}))
           [x05; x00]).
  - vm_compute. reflexivity.
  - simpl. lia.
Defined.

(** ** Which operations touch the local files *)

Lemma same_files_refl (st : state) : same_files st st.
Proof. reflexivity. Qed.

Lemma same_files_trans (a b c : state) :
  same_files a b -> same_files b c -> same_files a c.
Proof. unfold same_files. congruence. Qed.

Lemma keeps_bind {A B} (m : M A) (k : A -> M B) :
  preserves same_files m -> (forall a, preserves same_files (k a)) ->
  preserves same_files (bind m k).
Proof. apply preserves_bind. exact same_files_trans. Qed.

Lemma keeps_ret {A} (a : A) : preserves same_files (ret a).
Proof. apply preserves_ret, same_files_refl. Qed.

Lemma keeps_lift {A} (r : result A) : preserves same_files (lift r).
Proof. apply preserves_lift, same_files_refl. Qed.

Lemma keeps_recv (bufsize : Z) : preserves same_files (recv bufsize).
Proof. intros [s f c n]. now rewrite recv_eq. Qed.

Lemma keeps_print (line : str) : preserves same_files (print line).
Proof. intros st. reflexivity. Qed.

Lemma keeps_read_file (filename : str) :
  preserves same_files (read_file filename).
Proof.
  intros st. unfold read_file. destruct filename; [reflexivity|].
  destruct (files st !! _); reflexivity.
Qed.

Lemma keeps_send_request (user_id : bytes) (version : Z) (op_code : OpCode)
    (filename : str) :
  preserves same_files (send_request user_id version op_code filename).
Proof.
  intros st. rewrite send_request_frame.
  destruct (request_frame _ _ _ _ _); reflexivity.
Qed.

Lemma keeps_receive_status : preserves same_files receive_status.
Proof.
  apply keeps_bind; [apply keeps_recv|]. intros header.
  apply keeps_bind; [apply keeps_lift|]. intros fields. apply keeps_ret.
Qed.

Lemma keeps_receive_filename : preserves same_files receive_filename.
Proof.
  apply keeps_bind; [apply keeps_recv|]. intros buf.
  apply keeps_bind; [apply keeps_lift|]. intros fields.
  apply keeps_bind; [apply keeps_recv|]. intros name.
  apply keeps_bind; [apply keeps_lift|]. intros filename. apply keeps_ret.
Qed.

(** X12.  Save and Delete never touch the local files: whatever the server
    answers, and whether the operation returns or raises, every local file
    is afterwards as it was. *)
Theorem save_and_delete_keep_files (user_id : bytes) (version : Z)
    (filename : str) (st : state) :
  files (snd (request_file_save user_id version filename st)) = files st
  /\ files (snd (request_file_delete user_id version filename st)) = files st.
Proof.
  split.
  - apply (keeps_bind _ _ (keeps_send_request _ _ _ _)). intros _.
    apply keeps_bind; [apply keeps_receive_status|]. intros status.
    destruct (status =? _).
    + apply keeps_bind; [apply keeps_receive_filename|]. intros name.
      apply keeps_print.
    + destruct (status =? _); apply keeps_print.
  - apply (keeps_bind _ _ (keeps_send_request _ _ _ _)). intros _.
    apply keeps_bind; [apply keeps_receive_status|]. intros status.
    destruct (status =? _).
    + apply keeps_bind; [apply keeps_receive_filename|]. intros name.
      apply keeps_print.
    + destruct (status =? _); apply keeps_print.
Qed.

(** What follows the filename in a successful List writes no file but the
    one named. *)
Lemma writes_list_tail (remote : str) :
  preserves (same_files_except remote)
    (receive_file remote;;
     file_content <- read_file remote;;
     print (lit "List of files on server:");;
     text <- lift (utf8.decode file_content);;
     print text).
Proof.
  apply writes_bind; [apply writes_receive_file|]. intros _.
  apply writes_bind.
  { intros st. apply same_files_step, keeps_read_file. }
  intros content.
  apply writes_bind; [apply writes_print|]. intros _.
  apply writes_bind; [apply writes_lift|]. intros text. apply writes_print.
Qed.

(** X13.  The only local file a List operation can create or change is the
    one whose name the server sent after answering FILE_LIST_RETRIEVED: if
    any file differs afterwards, its name is the filename received. *)
Theorem list_writes_only_the_named_file (user_id : bytes) (version : Z)
    (st : state) (path : str) :
  files (snd (request_file_list user_id version st)) !! path
  <> files st !! path ->
  exists st1 st2 st3,
    send_request user_id version LIST_FILES [] st = (Returns tt, st1)
    /\ receive_status st1
       = (Returns (ResponseStatus_value FILE_LIST_RETRIEVED), st2)
    /\ receive_filename st2 = (Returns path, st3).
Proof.
  intros Hdiff.
  pose proof (keeps_send_request user_id version LIST_FILES [] st) as Hk1.
  unfold request_file_list in Hdiff. unfold bind at 1 in Hdiff.
  destruct (send_request user_id version LIST_FILES [] st)
    as [[[]|e|] st1] eqn:Hsend; cbn [snd] in *;
    try (exfalso; apply Hdiff; now rewrite Hk1).
  pose proof (keeps_receive_status st1) as Hk2.
  unfold bind at 1 in Hdiff.
  destruct (receive_status st1) as [[status|e|] st2] eqn:Hstatus;
    cbn [snd] in *;
    try (exfalso; apply Hdiff; now rewrite Hk2, Hk1).
  destruct (Z.eqb_spec status (ResponseStatus_value FILE_LIST_RETRIEVED))
    as [->|_].
  - pose proof (keeps_receive_filename st2) as Hk3.
    unfold bind at 1 in Hdiff.
    destruct (receive_filename st2) as [[remote|e|] st3] eqn:Hname;
      cbn [snd] in *;
      try (exfalso; apply Hdiff; now rewrite Hk3, Hk2, Hk1).
    destruct (decide (path = remote)) as [->|Hne]; [eauto 6|].
    exfalso. apply Hdiff.
    rewrite (writes_list_tail remote st3 path Hne). now rewrite Hk3, Hk2, Hk1.
  - exfalso. apply Hdiff.
    destruct (status =? _); cbn [snd print files]; now rewrite Hk2, Hk1.
Qed.

Lemma list_writes_only_the_named_file_witness :
  exists st1 st2 st3,
    send_request [x01; x02; x03; x04] 1 LIST_FILES []
      (scenario [[x01; xd3; x00]; [x01; x00]; [x6c];
                 [x02; x00; x00; x00]; [x61; x0a]] ∅)
    = (Returns tt, st1)
    /\ receive_status st1
       = (Returns (ResponseStatus_value FILE_LIST_RETRIEVED), st2)
    /\ receive_filename st2 = (Returns (lit "l"), st3).
Proof.
  apply (list_writes_only_the_named_file [x01; x02; x03; x04] 1
           (scenario [[x01; xd3; x00]; [x01; x00]; [x6c];
                      [x02; x00; x00; x00]; [x61; x0a]] ∅) (lit "l")).
  vm_compute. discriminate.
Defined.

(** ** Statuses other than success *)

(** X14.  After the status header, only the success status of an operation
    (FILE_LIST_RETRIEVED for List, SUCCESS for Save and Delete,
    FILE_RETRIEVED for Retrieve) makes it read on.  For every other status,
    SERVER_ERROR and unknown values included, the operation prints one line
    and returns: nothing more is read from the stream and no file is
    written. *)
Theorem other_status_reads_nothing (user_id : bytes) (version : Z)
    (filename : str) (st st1 st2 : state) (status : Z) :
  receive_status st1 = (Returns status, st2) ->
  (send_request user_id version LIST_FILES [] st = (Returns tt, st1) ->
   status <> ResponseStatus_value FILE_LIST_RETRIEVED ->
   exists line, request_file_list user_id version st = print line st2)
  /\ (send_request user_id version SAVE_FILE filename st = (Returns tt, st1) ->
      status <> ResponseStatus_value SUCCESS ->
      exists line,
        request_file_save user_id version filename st = print line st2)
  /\ (send_request user_id version RETRIEVE_FILE filename st
      = (Returns tt, st1) ->
      status <> ResponseStatus_value FILE_RETRIEVED ->
      exists line,
        request_file_retrieve user_id version filename st = print line st2)
  /\ (send_request user_id version DELETE_FILE filename st
      = (Returns tt, st1) ->
      status <> ResponseStatus_value SUCCESS ->
      exists line,
        request_file_delete user_id version filename st = print line st2).
Proof.
  intros Hstatus. repeat split; intros Hsend Hne.
  - unfold request_file_list. unfold bind at 1. rewrite Hsend.
    unfold bind at 1. rewrite Hstatus.
    destruct (Z.eqb_spec status (ResponseStatus_value FILE_LIST_RETRIEVED));
      [contradiction|].
    destruct (status =? _); eauto.
  - unfold request_file_save. unfold bind at 1. rewrite Hsend.
    unfold bind at 1. rewrite Hstatus.
    destruct (Z.eqb_spec status (ResponseStatus_value SUCCESS));
      [contradiction|].
    destruct (status =? _); eauto.
  - unfold request_file_retrieve. unfold bind at 1. rewrite Hsend.
    unfold bind at 1. rewrite Hstatus.
    destruct (Z.eqb_spec status (ResponseStatus_value FILE_RETRIEVED));
      [contradiction|].
    destruct (status =? _); eauto.
  - unfold request_file_delete. unfold bind at 1. rewrite Hsend.
    unfold bind at 1. rewrite Hstatus.
    destruct (Z.eqb_spec status (ResponseStatus_value SUCCESS));
      [contradiction|].
    destruct (status =? _); eauto.
Qed.

Lemma other_status_reads_nothing_witness :
  exists line,
    request_file_retrieve [x01; x02; x03; x04] 1 (lit "a")
      (scenario [[x01; xeb; x03; x09; x09]] ∅)
    = print line
        (with_incoming [[x09; x09]]
           (after_send [x04; x03; x02; x01; x01; xc8; x01; x00; x61]
              (scenario [[x01; xeb; x03; x09; x09]] ∅))).
Proof.
  destruct (other_status_reads_nothing [x01; x02; x03; x04] 1 (lit "a")
              (scenario [[x01; xeb; x03; x09; x09]] ∅)
              (after_send [x04; x03; x02; x01; x01; xc8; x01; x00; x61]
                 (scenario [[x01; xeb; x03; x09; x09]] ∅))
              (with_incoming [[x09; x09]]
                 (after_send [x04; x03; x02; x01; x01; xc8; x01; x00; x61]
                    (scenario [[x01; xeb; x03; x09; x09]] ∅)))
              (ResponseStatus_value SERVER_ERROR))
    as (_ & _ & Hretrieve & _).
  - vm_compute. reflexivity.
  - apply Hretrieve.
    + vm_compute. reflexivity.
    + discriminate.
Defined.

(** ** Responses whose fields are not split across segments *)

Lemma receive_status_fronted (b : byte) (status : Z) (fields segs rest : list bytes)
    (st : state) :
  0 <= status < 65536 ->
  incoming (sock st) = segs ->
  fronted ((b :: struct.to_le 2 status) :: fields) segs rest ->
  exists segs',
    receive_status st = (Returns status, with_incoming segs' st)
    /\ fronted fields segs' rest.
Proof.
  intros Hstatus Hin Hfront. revert Hin.
  inversion Hfront as [|x y more fs r Hx Hfields]; subst. intros Hin.
  exists (requeue y more). split; [|exact Hfields].
  exact (receive_status_front b status y more st Hstatus Hin).
Qed.

Lemma receive_filename_fronted (text : str) (name : bytes)
    (fields segs rest : list bytes) (st : state) :
  name <> [] ->
  utf8.decode name = Ok text ->
  len name < 65536 ->
  incoming (sock st) = segs ->
  fronted (struct.to_le 2 (len name) :: name :: fields) segs rest ->
  exists segs',
    receive_filename st = (Returns text, with_incoming segs' st)
    /\ fronted fields segs' rest.
Proof.
  intros Hne Hdec Hlen Hin Hfront. revert Hin.
  inversion Hfront as [|x y more fs r Hx Hname]; subst. intros Hin.
  inversion Hname as [|x2 y2 more2 fs2 r2 Hx2 Hfields Hsegs]; subst.
  assert (Hrange : 0 <= len name < 2 ^ (8 * Z.of_nat (struct.width struct.H))).
  { change (2 ^ (8 * Z.of_nat (struct.width struct.H))) with 65536.
    unfold len in *. lia. }
  exists (requeue y2 more2). split; [|exact Hfields].
  unfold receive_filename. unfold bind at 1.
  rewrite (recv_front _ (struct.to_le 2 (len name)) y more st);
    [|apply to_le_2_cons|reflexivity|exact Hin].
  unfold bind at 1.
  pose proof (unpack_to_le struct.H (len name) Hrange) as Hunpack.
  cbn [struct.width] in Hunpack. rewrite Hunpack. cbn [lift ret nth].
  unfold bind at 1.
  rewrite (recv_front _ name y2 more2 (with_incoming (requeue y more) st));
    [|exact Hne|unfold len; lia|now symmetry].
  unfold bind. rewrite Hdec. reflexivity.
Qed.

Lemma receive_file_fronted (filename : str) (payload : bytes)
    (segs rest : list bytes) (st : state) :
  filename <> [] ->
  len payload < 2 ^ 32 ->
  incoming (sock st) = segs ->
  fronted [struct.to_le 4 (len payload)] segs rest ->
  concat rest = payload ->
  exists rest',
    receive_file filename st
    = (Returns tt,
       set_files (<[filename := payload]> (files st)) (with_incoming rest' st))
    /\ concat rest' = [].
Proof.
  intros Hname Hlen Hin Hfront Hpay. revert Hin.
  inversion Hfront as [|x y more fs r Hx Hnil]; subst.
  inversion Hnil; subst. intros Hin.
  apply (receive_file_front filename (concat (requeue y more)) y more st);
    [exact Hname|exact Hlen|now rewrite requeue_concat|exact Hin].
Qed.

(** ** A successful List, end to end *)



(** ** The orchestrator: what it reports and what it leaves *)

(** X16.  When the connection is refused, [request] does not call the
    request function: nothing is sent and no file is touched; it prints the
    name of the function followed by " failed:", then the traceback of
    ConnectionRefusedError, closes the socket and returns. *)
Theorem request_connection_refused (request_function : request_fn)
    (server_ip : str) (server_port : Z) (user_id : bytes) (st : state) :
  net st server_ip server_port = None ->
  request request_function server_ip server_port user_id st
  = (Returns tt,
     State (Socket [] [] false) (files st)
       (console st
        ++ [Printed (fn_name request_function ++ lit " failed:");
            Traceback ConnectionRefusedError])
       (net st)).
Proof.
  intros Hnet.
  unfold request, with_socket, try_except, socket_socket, bind, connect.
  unfold set_sock. cbn [net sock sent is_open files console].
  rewrite Hnet. unfold print, print_exc, close, set_sock.
  cbn [net sock sent is_open files console incoming snd].
  now rewrite <- app_assoc.
Qed.

Lemma request_connection_refused_witness :
  request (op_list 1) (lit "127.0.0.1") 1234 [x01; x02; x03; x04]
    (scenario [] ∅)
  = (Returns tt,
     State (Socket [] [] false) ∅
       ([] ++ [Printed (lit "request_file_list" ++ lit " failed:");
               Traceback ConnectionRefusedError])
       (fun _ _ => None)).
Proof.
  apply (request_connection_refused (op_list 1) (lit "127.0.0.1") 1234
           [x01; x02; x03; x04] (scenario [] ∅)).
  reflexivity.
Defined.

(** X17.  On an accepted connection [request] runs the request function on a
    fresh socket that receives the peer's segments.  If the function
    returns, [request] adds nothing to the console; if it raises, [request]
    adds the name of the function followed by " failed:" and the traceback
    of that exception.  Either way it returns with the socket closed and the
    rest of the state as the function left it. *)
Theorem request_reports_failure (request_function : request_fn)
    (server_ip : str) (server_port : Z) (user_id : bytes) (st st1 : state)
    (segs : list bytes) (r : outcome unit) :
  net st server_ip server_port = Some segs ->
  fn_call request_function user_id
    (State (Socket [] segs true) (files st) (console st) (net st))
  = (r, st1) ->
  r <> Diverges ->
  request request_function server_ip server_port user_id st
  = (Returns tt,
     State (Socket (sent (sock st1)) (incoming (sock st1)) false) (files st1)
       (console st1
        ++ match r with
           | Raises e =>
               [Printed (fn_name request_function ++ lit " failed:");
                Traceback e]
           | _ => []
           end)
       (net st1)).
Proof.
  intros Hnet Hcall Hr.
  unfold request, with_socket, try_except, socket_socket, bind, connect.
  unfold set_sock. cbn [net sock sent is_open files console].
  rewrite Hnet, Hcall. destruct r as [[]|e|]; [| |congruence].
  - unfold close, set_sock. cbn [snd]. now rewrite app_nil_r.
  - unfold print, print_exc, close, set_sock.
    cbn [net sock sent is_open files console incoming snd].
    now rewrite <- app_assoc.
Qed.

Lemma request_reports_failure_witness :
  request (op_delete 1 (lit "a")) (lit "h") 1 [x01; x02; x03; x04]
    (State (Socket [x00] [] false) ∅ []
       (fun _ _ => Some [[x01; xd4; x00]]))
  = (Returns tt,
     State (Socket [x04; x03; x02; x01; x01; xc9; x01; x00; x61] [] false) ∅
       ([] ++ [Printed (lit "request_file_delete" ++ lit " failed:");
               Traceback StructError])
       (fun _ _ => Some [[x01; xd4; x00]])).
Proof.
  apply (request_reports_failure (op_delete 1 (lit "a")) (lit "h") 1
           [x01; x02; x03; x04]
           (State (Socket [x00] [] false) ∅ []
              (fun _ _ => Some [[x01; xd4; x00]]))
           (State (Socket [x04; x03; x02; x01; x01; xc9; x01; x00; x61] []
                     true) ∅ []
              (fun _ _ => Some [[x01; xd4; x00]]))
           [[x01; xd4; x00]] (Raises StructError)).
  - reflexivity.
  - vm_compute. reflexivity.
  - discriminate.
Defined.

(** ** The list of local filenames *)

Lemma lstrip_head (s : str) (c : Z) (t : str) :
  lstrip s = c :: t -> is_space c = false.
Proof.
  induction s as [|x s IH]; [discriminate|]. cbn [lstrip].
  destruct (is_space x) eqn:Ex; [exact IH|]. now intros [= <- _].
Qed.

Lemma lstrip_suffix (s : str) : exists pre, s = pre ++ lstrip s.
Proof.
  induction s as [|x s [pre IH]]; [now exists []|]. cbn [lstrip].
  destruct (is_space x); [|now exists []].
  exists (x :: pre). cbn [app]. now rewrite <- IH.
Qed.

Lemma rstrip_prefix (s : str) : exists suf, s = rstrip s ++ suf.
Proof.
  unfold rstrip. destruct (lstrip_suffix (rev s)) as [pre Hpre].
  exists (rev pre). rewrite <- rev_app_distr, <- Hpre. now rewrite rev_involutive.
Qed.

Lemma strip_in (s : str) (x : Z) : In x (strip s) -> In x s.
Proof.
  unfold strip. intros Hin.
  destruct (rstrip_prefix (lstrip s)) as [suf Hsuf].
  destruct (lstrip_suffix s) as [pre Hpre].
  rewrite Hpre, Hsuf. apply in_or_app. right. apply in_or_app. now left.
Qed.

Lemma rstrip_last (s : str) (t : str) (c : Z) :
  rstrip s = t ++ [c] -> is_space c = false.
Proof.
  unfold rstrip. intros H. apply (f_equal (@rev Z)) in H.
  rewrite rev_involutive, rev_app_distr in H. cbn [rev app] in H.
  exact (lstrip_head _ _ _ H).
Qed.

Lemma strip_first (s : str) (c : Z) (t : str) :
  strip s = c :: t -> is_space c = false.
Proof.
  unfold strip. intros H.
  destruct (rstrip_prefix (lstrip s)) as [suf Hsuf].
  rewrite H in Hsuf. exact (lstrip_head s c (t ++ suf) Hsuf).
Qed.

(** A trailing white-space character does not change what [strip] gives. *)
Lemma strip_snoc_space (s : str) (z : Z) :
  is_space z = true -> strip (s ++ [z]) = strip s.
Proof.
  intros Hz. unfold strip.
  assert (Hl : lstrip (s ++ [z])
               = match lstrip s with [] => [] | _ => lstrip s ++ [z] end).
  { induction s as [|x s IH]; cbn [app lstrip].
    - now rewrite Hz.
    - destruct (is_space x); [exact IH|reflexivity]. }
  rewrite Hl. destruct (lstrip s) as [|u0 u] eqn:Eu; [reflexivity|].
  unfold rstrip. rewrite rev_app_distr. cbn [rev app lstrip].
  now rewrite Hz.
Qed.

(** Text read with universal newlines holds no carriage return. *)
Lemma universal_newlines_no_cr (s : str) : ~ In 13 (universal_newlines s).
Proof.
  induction s as [s IH] using (induction_ltof1 _ (@length Z)).
  unfold ltof in IH. destruct s as [|c t]; [intros []|].
  cbn [universal_newlines].
  destruct (Z.eqb_spec c 13) as [->|Hc].
  - destruct t as [|c' t'].
    + intros [H|[]]. discriminate H.
    + destruct (c' =? 10); intros [H|H]; try discriminate H;
        revert H; apply IH; simpl; lia.
  - intros [H|H]; [congruence|]. revert H. apply IH. simpl. lia.
Qed.

(** A line read holds characters of the text, and no line feed except,
    possibly, as its last character. *)
Lemma readlines_shape (s : str) (line : str) :
  In line (readlines s) ->
  (forall x, In x line -> In x s)
  /\ (~ In 10 line \/ exists body, line = body ++ [10] /\ ~ In 10 body).
Proof.
  revert line. induction s as [|c t IH]; intros line Hline; [destruct Hline|].
  cbn [readlines] in Hline.
  destruct (Z.eqb_spec c 10) as [->|Hc].
  - destruct Hline as [<-|Hline].
    + split; [intros x [<-|[]]; now left|].
      right. exists []. split; [reflexivity|intros []].
    + destruct (IH line Hline) as [Hsub Hshape].
      split; [|exact Hshape]. intros x Hx. right. now apply Hsub.
  - destruct (readlines t) as [|l ls] eqn:El.
    + destruct Hline as [<-|[]].
      split; [intros x [<-|[]]; now left|].
      left. intros [H|[]]. congruence.
    + destruct Hline as [<-|Hline].
      * destruct (IH l (or_introl eq_refl)) as [Hsub Hshape].
        split.
        { intros x [<-|Hx]; [now left|right; now apply Hsub]. }
        destruct Hshape as [Hno|(body & -> & Hno)].
        { left. intros [H|H]; [congruence|contradiction]. }
        right. exists (c :: body). split; [reflexivity|].
        intros [H|H]; [congruence|contradiction].
      * destruct (IH line (or_intror Hline)) as [Hsub Hshape].
        split; [|exact Hshape]. intros x Hx. right. now apply Hsub.
Qed.

(** X18.  [get_local_filenames] changes nothing, and every name it returns
    is stripped: it neither begins nor ends with a white-space character and
    holds no line feed and no carriage return, however the lines of
    backup.info end. *)
Theorem get_local_filenames_stripped (locale_decode : bytes -> result str)
    (st st' : state) (names : list str) :
  get_local_filenames locale_decode st = (Returns names, st') ->
  st' = st
  /\ Forall (fun name =>
               (forall c t, name = c :: t -> is_space c = false)
               /\ (forall t c, name = t ++ [c] -> is_space c = false)
               /\ ~ In 10 name /\ ~ In 13 name) names.
Proof.
  unfold get_local_filenames, bind, file_text.
  change (lit "backup.info") with (98 :: lit "ackup.info").
  cbv beta iota.
  destruct (files st !! _) as [content|]; [|discriminate].
  destruct (locale_decode content) as [text|e]; [|discriminate].
  cbn [rbind lift ret]. intros [= <- <-]. split; [reflexivity|].
  apply List.Forall_forall. intros name Hname.
  apply in_map_iff in Hname as (line & <- & Hline).
  destruct (readlines_shape _ _ Hline) as [Hsub Hshape].
  split; [intros c t; apply strip_first|].
  split; [intros t c; unfold strip; apply rstrip_last|].
  split.
  - destruct Hshape as [Hno|(body & -> & Hno)].
    + intros H. apply Hno. now apply strip_in.
    + rewrite strip_snoc_space by reflexivity.
      intros H. apply Hno. now apply strip_in.
  - intros H. apply strip_in, Hsub in H.
    exact (universal_newlines_no_cr _ H).
Qed.

Lemma get_local_filenames_stripped_witness :
  scenario [] {[ lit "backup.info" := [x20; x61; x0d; x0a; x62; x09] ]}
  = scenario [] {[ lit "backup.info" := [x20; x61; x0d; x0a; x62; x09] ]}
  /\ Forall (fun name =>
               (forall c t, name = c :: t -> is_space c = false)
               /\ (forall t c, name = t ++ [c] -> is_space c = false)
               /\ ~ In 10 name /\ ~ In 13 name) [lit "a"; lit "b"].
Proof.
  apply (get_local_filenames_stripped utf8.decode
           (scenario [] {[ lit "backup.info"
                           := [x20; x61; x0d; x0a; x62; x09] ]})).
  vm_compute. reflexivity.
Defined.

(** ** Successful Retrieve, Save and Delete, end to end *)

Lemma send_request_returns (user_id : bytes) (version : Z) (op_code : OpCode)
    (filename : str) (st st1 : state) :
  send_request user_id version op_code filename st = (Returns tt, st1) ->
  exists frame, st1 = after_send frame st.
Proof.
  rewrite send_request_frame.
  destruct (request_frame _ _ _ _ _) as [frame|]; [|discriminate].
  intros [= <-]. eauto.
Qed.

(** X19.  A successful Retrieve, end to end.  Once the request is sent, when
    the server answers FILE_RETRIEVED, a non-empty name that is valid UTF-8,
    a size field and exactly the declared number of payload bytes, and none
    of the header, NameLen, the name and the size field is split across two
    segments (the payload may arrive in segments of any sizes), the
    operation stores exactly the payload in the local file "tmp", prints
    "Retrieved <name> from server" with the name the server sent, and leaves
    the stream exhausted. *)
Theorem retrieve_end_to_end (user_id : bytes) (version : Z) (filename : str)
    (st st1 : state) (b : byte) (remote : str) (name payload : bytes)
    (rest : list bytes) :
  send_request user_id version RETRIEVE_FILE filename st = (Returns tt, st1) ->
  name <> [] ->
  utf8.decode name = Ok remote ->
  len name < 65536 ->
  len payload < 2 ^ 32 ->
  fronted [b :: struct.to_le 2 (ResponseStatus_value FILE_RETRIEVED);
           struct.to_le 2 (len name); name; struct.to_le 4 (len payload)]
    (incoming (sock st)) rest ->
  concat rest = payload ->
  exists st',
    request_file_retrieve user_id version filename st = (Returns tt, st')
    /\ files st' = <[lit "tmp" := payload]> (files st)
    /\ console st'
       = console st
         ++ [Printed (lit "Retrieved " ++ remote ++ lit " from server")]
    /\ sent (sock st') = sent (sock st1)
    /\ concat (incoming (sock st')) = [].
Proof.
  intros Hsend Hname Hdec Hnlen Hplen Hfront Hpay.
  destruct (send_request_returns _ _ _ _ _ _ Hsend) as [frame ->].
  unfold request_file_retrieve. unfold bind at 1. rewrite Hsend.
  set (st1 := after_send frame st).
  assert (Hst : 0 <= ResponseStatus_value FILE_RETRIEVED < 65536)
    by (cbn [ResponseStatus_value]; lia).
  destruct (receive_status_fronted b _ _ _ rest st1 Hst eq_refl Hfront)
    as (segs2 & Hstatus & Hfront2).
  unfold bind at 1. rewrite Hstatus, Z.eqb_refl.
  set (st2 := with_incoming segs2 st1).
  destruct (receive_filename_fronted remote name _ segs2 rest st2
              Hname Hdec Hnlen eq_refl Hfront2)
    as (segs3 & Hfilename & Hfront3).
  unfold bind at 1. rewrite Hfilename.
  set (st3 := with_incoming segs3 st2).
  destruct (receive_file_fronted (lit "tmp") payload segs3 rest st3)
    as (rest' & Hrun & Hrest);
    [discriminate|exact Hplen|reflexivity|exact Hfront3|exact Hpay|].
  unfold bind. rewrite Hrun. cbn [print].
  eexists. split; [reflexivity|].
  cbn [sock sent files console incoming with_incoming set_sock set_files].
  auto.
Qed.

Lemma retrieve_end_to_end_witness :
  exists st',
    request_file_retrieve [x01; x02; x03; x04] 1 (lit "a")
      (scenario [[x01; xd2; x00; x01; x00]; [x61; x03; x00; x00; x00];
                 [x68]; [x69; x21]] ∅)
    = (Returns tt, st')
    /\ files st' = <[lit "tmp" := [x68; x69; x21]]> ∅
    /\ console st'
       = [] ++ [Printed (lit "Retrieved " ++ lit "a" ++ lit " from server")]
    /\ sent (sock st') = [x04; x03; x02; x01; x01; xc8; x01; x00; x61]
    /\ concat (incoming (sock st')) = [].
Proof.
  apply (retrieve_end_to_end [x01; x02; x03; x04] 1 (lit "a")
           (scenario [[x01; xd2; x00; x01; x00]; [x61; x03; x00; x00; x00];
                      [x68]; [x69; x21]] ∅)
           (after_send [x04; x03; x02; x01; x01; xc8; x01; x00; x61]
              (scenario [[x01; xd2; x00; x01; x00];
                         [x61; x03; x00; x00; x00]; [x68]; [x69; x21]] ∅))
           x01 (lit "a") [x61] [x68; x69; x21] [[x68]; [x69; x21]]).
  - vm_compute. reflexivity.
  - discriminate.
  - vm_compute. reflexivity.
  - vm_compute. reflexivity.
  - vm_compute. reflexivity.
  - apply (fronted_cons [x01; xd2; x00] [x01; x00]
             [[x61; x03; x00; x00; x00]; [x68]; [x69; x21]]);
      [discriminate|].
    apply (fronted_cons [x01; x00] []
             [[x61; x03; x00; x00; x00]; [x68]; [x69; x21]]);
      [discriminate|].
    apply (fronted_cons [x61] [x03; x00; x00; x00] [[x68]; [x69; x21]]);
      [discriminate|].
    apply (fronted_cons [x03; x00; x00; x00] [] [[x68]; [x69; x21]]);
      [discriminate|].
    apply fronted_nil.
  - reflexivity.
Defined.

(** X20.  A successful Save or Delete.  Once the request is sent, when the
    server answers SUCCESS and a non-empty name that is valid UTF-8, and
    none of the header, NameLen and the name is split across two segments,
    the operation prints its confirmation, "Saved <name> to server" or
    "Deleted <name> from server", with the name the server sent, not the
    local one, and consumes exactly the header, NameLen and the name. *)
Theorem save_delete_confirmation (user_id : bytes) (version : Z)
    (filename : str) (st st1 : state) (b : byte) (remote : str)
    (name : bytes) (rest : list bytes) :
  name <> [] ->
  utf8.decode name = Ok remote ->
  len name < 65536 ->
  fronted [b :: struct.to_le 2 (ResponseStatus_value SUCCESS);
           struct.to_le 2 (len name); name]
    (incoming (sock st)) rest ->
  (send_request user_id version SAVE_FILE filename st = (Returns tt, st1) ->
   request_file_save user_id version filename st
   = print (lit "Saved " ++ remote ++ lit " to server")
       (with_incoming rest st1))
  /\ (send_request user_id version DELETE_FILE filename st
      = (Returns tt, st1) ->
      request_file_delete user_id version filename st
      = print (lit "Deleted " ++ remote ++ lit " from server")
          (with_incoming rest st1)).
Proof.
  intros Hname Hdec Hnlen Hfront.
  assert (Hst : 0 <= ResponseStatus_value SUCCESS < 65536)
    by (cbn [ResponseStatus_value]; lia).
  assert (Hparse : forall frame,
            exists segs2,
              receive_status (after_send frame st)
              = (Returns (ResponseStatus_value SUCCESS),
                 with_incoming segs2 (after_send frame st))
              /\ receive_filename (with_incoming segs2 (after_send frame st))
                 = (Returns remote, with_incoming rest (after_send frame st))).
  { intros frame.
    destruct (receive_status_fronted b _ _ _ rest (after_send frame st)
                Hst eq_refl Hfront) as (segs2 & Hstatus & Hfront2).
    destruct (receive_filename_fronted remote name _ segs2 rest
                (with_incoming segs2 (after_send frame st))
                Hname Hdec Hnlen eq_refl Hfront2)
      as (segs3 & Hfilename & Hfront3).
    inversion Hfront3; subst.
    exists segs2. split; [exact Hstatus|exact Hfilename]. }
  split; intros Hsend;
    destruct (send_request_returns _ _ _ _ _ _ Hsend) as [frame ->];
    destruct (Hparse frame) as (segs2 & Hstatus & Hfilename).
  - unfold request_file_save. unfold bind at 1. rewrite Hsend.
    unfold bind at 1. rewrite Hstatus, Z.eqb_refl.
    unfold bind. rewrite Hfilename. reflexivity.
  - unfold request_file_delete. unfold bind at 1. rewrite Hsend.
    unfold bind at 1. rewrite Hstatus, Z.eqb_refl.
    unfold bind. rewrite Hfilename. reflexivity.
Qed.

Lemma save_delete_confirmation_witness :
  request_file_save [x01; x02; x03; x04] 1 (lit "a")
    (scenario [[x01; xd4; x00]; [x01; x00]; [x62]] {[ lit "a" := [x68] ]})
  = print (lit "Saved " ++ lit "b" ++ lit " to server")
      (with_incoming []
         (after_send [x04; x03; x02; x01; x01; x64; x01; x00; x61;
                      x01; x00; x00; x00; x68]
            (scenario [[x01; xd4; x00]; [x01; x00]; [x62]]
               {[ lit "a" := [x68] ]}))).
Proof.
  destruct (save_delete_confirmation [x01; x02; x03; x04] 1 (lit "a")
              (scenario [[x01; xd4; x00]; [x01; x00]; [x62]]
                 {[ lit "a" := [x68] ]})
              (after_send [x04; x03; x02; x01; x01; x64; x01; x00; x61;
                           x01; x00; x00; x00; x68]
                 (scenario [[x01; xd4; x00]; [x01; x00]; [x62]]
                    {[ lit "a" := [x68] ]}))
              x01 (lit "b") [x62] []) as [Hsave _].
  - discriminate.
  - vm_compute. reflexivity.
  - vm_compute. reflexivity.
  - apply (fronted_cons [x01; xd4; x00] [] [[x01; x00]; [x62]]);
      [discriminate|].
    apply (fronted_cons [x01; x00] [] [[x62]]); [discriminate|].
    apply (fronted_cons [x62] [] []); [discriminate|].
    apply fronted_nil.
  - apply Hsave. vm_compute. reflexivity.
Defined.

(** ** Round trips and complete reads *)

(** X1.  What [struct.pack] produces has the size of the format, and
    [struct.unpack] with the same format reads back every value that was
    packed. *)
Theorem unpack_pack (fmt : list struct.code) (vals : list Z) (p : bytes) :
  struct.pack fmt vals = Ok p ->
  length p = struct.calcsize fmt /\ struct.unpack fmt p = Ok vals.
Proof.
  intros Hp. split.
  - exact (pack_length fmt vals p Hp).
  - exact (unpack_of_pack fmt vals p Hp).
Qed.

Lemma unpack_pack_witness :
  length [x01; xd4; x00] = struct.calcsize [struct.B; struct.H]
  /\ struct.unpack [struct.B; struct.H] [x01; xd4; x00] = Ok [1; 212].
Proof.
  apply (unpack_pack [struct.B; struct.H] [1; 212] [x01; xd4; x00]).
  vm_compute. reflexivity.
Defined.

(** X6.  Decoding inverts encoding: the UTF-8 bytes of a string decode to
    that string, so two different filenames never go out as the same
    bytes. *)
Theorem decode_encode (s : str) (name : bytes) :
  utf8.encode s = Ok name ->
  utf8.decode name = Ok s
  /\ forall s' : str, utf8.encode s' = Ok name -> s' = s.
Proof.
  intros Hname. split; [exact (decode_of_encode s name Hname)|].
  intros s' Hname'.
  apply decode_of_encode in Hname, Hname'. congruence.
Qed.

Lemma decode_encode_witness :
  utf8.decode [xc3; xa9; xe2; x82; xac; xf0; x9f; x98; x80; x41]
  = Ok [233; 8364; 128512; 65]
  /\ forall s' : str,
       utf8.encode s'
       = Ok [xc3; xa9; xe2; x82; xac; xf0; x9f; x98; x80; x41] ->
       s' = [233; 8364; 128512; 65].
Proof.
  apply (decode_encode [233; 8364; 128512; 65]).
  vm_compute. reflexivity.
Defined.

(** X7.  When the three bytes of the header arrive in one read,
    [receive_status] returns the status, whatever the version byte is, and
    consumes exactly those three bytes: what follows them is still to be
    read, and nothing else changes. *)
Theorem receive_status_reads_status (b : byte) (status : Z)
    (more : bytes) (rest : list bytes) (st : state) :
  0 <= status < 65536 ->
  incoming (sock st) = (b :: struct.to_le 2 status ++ more) :: rest ->
  exists st',
    receive_status st = (Returns status, st')
    /\ concat (incoming (sock st')) = more ++ concat rest
    /\ sent (sock st') = sent (sock st)
    /\ same_but_socket st st'.
Proof.
  intros Hstatus Hin.
  rewrite (receive_status_front b status more rest st Hstatus Hin).
  eexists. split; [reflexivity|].
  unfold with_incoming, set_sock. cbn [sock incoming sent].
  split; [apply requeue_concat|]. split; [reflexivity|]. repeat split.
Qed.

Lemma receive_status_reads_status_witness :
  exists st',
    receive_status (scenario [[x07; xea; x03; x61]; [x62]] ∅)
    = (Returns 1002, st')
    /\ concat (incoming (sock st')) = [x61] ++ concat [[x62]]
    /\ sent (sock st') = []
    /\ same_but_socket (scenario [[x07; xea; x03; x61]; [x62]] ∅) st'.
Proof.
  apply (receive_status_reads_status x07 1002 [x61] [[x62]]
           (scenario [[x07; xea; x03; x61]; [x62]] ∅)).
  - lia.
  - vm_compute. reflexivity.
Defined.

(** X10.  When the size field arrives in one read and the peer then delivers
    exactly the declared number of bytes, in segments of any sizes,
    [receive_file] returns with the file holding exactly the payload, any
    earlier content replaced, the stream exhausted, and nothing printed or
    sent. *)
Theorem receive_file_exact (filename : str) (payload first : bytes)
    (segs : list bytes) (st : state) :
  filename <> [] ->
  len payload < 2 ^ 32 ->
  first ++ concat segs = payload ->
  incoming (sock st) = (struct.to_le 4 (len payload) ++ first) :: segs ->
  exists st',
    receive_file filename st = (Returns tt, st')
    /\ files st' = <[filename := payload]> (files st)
    /\ concat (incoming (sock st')) = []
    /\ console st' = console st
    /\ sent (sock st') = sent (sock st).
Proof.
  intros Hname Hlen Hpay Hin.
  destruct (receive_file_front filename payload first segs st
              Hname Hlen Hpay Hin) as (rest & Hrun & Hrest).
  eexists. split; [exact Hrun|].
  unfold set_files, with_incoming, set_sock.
  cbn [sock files console incoming sent]. auto.
Qed.

Lemma receive_file_exact_witness :
  exists st',
    receive_file (lit "out")
      (scenario [[x03; x00; x00; x00; x61]; [x62]; [x63]]
         {[ lit "out" := [x7a; x7a; x7a; x7a] ]})
    = (Returns tt, st')
    /\ files st'
       = <[lit "out" := [x61; x62; x63]]>
           (files (scenario [[x03; x00; x00; x00; x61]; [x62]; [x63]]
                     {[ lit "out" := [x7a; x7a; x7a; x7a] ]}))
    /\ concat (incoming (sock st')) = []
    /\ console st' = []
    /\ sent (sock st') = [].
Proof.
  apply (receive_file_exact (lit "out") [x61; x62; x63] [x61]
           [[x62]; [x63]]
           (scenario [[x03; x00; x00; x00; x61]; [x62]; [x63]]
              {[ lit "out" := [x7a; x7a; x7a; x7a] ]})).
  - discriminate.
  - vm_compute. reflexivity.
  - reflexivity.
  - vm_compute. reflexivity.
Defined.
